(** * MetaPromptingFramework: template store and prompt executor

    A shallow embedding of [src/components/store.py],
    [src/components/prompt_executor.py] and [main.py].

    The three files are glue around external capabilities: the operating
    system's file tree (through [pathlib] and [open]), a YAML codec, the
    process environment and a remote generative model.  The embedding keeps
    the control flow of the source (the [try]/[except] ladders, the order of
    the effects, the log calls) and makes the capabilities explicit:

    - the file tree is a concrete finite map with POSIX path resolution;
    - the YAML codec and the remote model are parameters of a section;
    - exceptions are values of an error monad whose state survives a raise. *)

From Stdlib Require Import ZArith Ascii.
From stdpp Require Import base option list gmap strings pretty relations.

Set Default Proof Using "Type".
Set Warnings "-register-all".

(** ** Python runtime: exceptions, results, the state-and-exception monad *)

Module Py.

(** The [errno] values that the modelled file operations produce.  The
    operating system knows more ([EIO], [ENOMEM], [EOVERFLOW], [ELOOP], the
    bound [PATH_MAX] on a whole path): no statement below relies on this
    list being complete. *)
Inductive errno :=
| ENOENT | EACCES | EEXIST | ENOTDIR | EISDIR | ENAMETOOLONG.

(** Classes of raised objects.  Every class here derives from
    [Exception]; [IOError] is an alias of [OSError], whose subclasses
    ([FileNotFoundError], [PermissionError], ...) are told apart by
    [errno].  [KeyboardInterrupt] and [SystemExit] derive from
    [BaseException] only: they are not faults of an operation and are
    not values of this type (process exit is modelled in [Startup]). *)
Inductive exc_class :=
| OSError (e : errno)
| YAMLError
| GoogleAPICallError
| ValueError
| TypeError
| RecursionError
| RuntimeError.

Record exc := Exc { exc_cls : exc_class; exc_msg : string }.

Global Instance errno_eq_dec : EqDecision errno.
Proof. solve_decision. Defined.
Global Instance exc_class_eq_dec : EqDecision exc_class.
Proof. solve_decision. Defined.
Global Instance exc_eq_dec : EqDecision exc.
Proof. solve_decision. Defined.

(** [isinstance] tests used by the [except] clauses of the source. *)
Definition is_IOError (e : exc) : bool :=
  match exc_cls e with OSError _ => true | _ => false end.
Definition is_FileNotFoundError (e : exc) : bool :=
  match exc_cls e with OSError ENOENT => true | _ => false end.
Definition is_YAMLError (e : exc) : bool :=
  match exc_cls e with YAMLError => true | _ => false end.
Definition is_GoogleAPICallError (e : exc) : bool :=
  match exc_cls e with GoogleAPICallError => true | _ => false end.
Definition is_ValueError (e : exc) : bool :=
  match exc_cls e with ValueError => true | _ => false end.
Definition is_Exception (e : exc) : bool := true.

(** Outcome of evaluating a Python expression. *)
Inductive Res (A : Type) :=
| Ok (a : A)
| Raise (e : exc).
Global Arguments Ok {A} a.
Global Arguments Raise {A} e.

(** Computations over a state [S]; the state reached when an exception is
    raised is kept, as side effects performed before a raise persist. *)
Definition M (S A : Type) : Type := S -> Res A * S.

Definition ret {S A} (a : A) : M S A := fun s => (Ok a, s).
Definition raise {S A} (e : exc) : M S A := fun s => (Raise e, s).
Definition bind {S A B} (m : M S A) (k : A -> M S B) : M S B :=
  fun s =>
    match m s with
    | (Ok a, s') => k a s'
    | (Raise e, s') => (Raise e, s')
    end.
Definition gets {S A} (f : S -> A) : M S A := fun s => (Ok (f s), s).
Definition modify {S} (f : S -> S) : M S unit := fun s => (Ok tt, f s).
Definition lift {S A} (r : Res A) : M S A := fun s => (r, s).

(** One [except C as e: h] clause: the class test and the handler. *)
Definition clause (S A : Type) : Type := (exc -> bool) * (exc -> M S A).

(** The clauses of a [try] statement are tried in order; an exception that
    matches none of them propagates. *)
Fixpoint dispatch {S A} (cs : list (clause S A)) (e : exc) : M S A :=
  match cs with
  | [] => raise e
  | (test, handler) :: cs' => if test e then handler e else dispatch cs' e
  end.

Definition try_except {S A} (body : M S A) (cs : list (clause S A)) : M S A :=
  fun s =>
    match body s with
    | (Ok a, s') => (Ok a, s')
    | (Raise e, s') => dispatch cs e s'
    end.

End Py.

Export Py.

Declare Scope py_scope.
Delimit Scope py_scope with py.
Notation "x <- m ;; k" := (bind m (fun x => k))
  (at level 20, m at level 99, k at level 200, only parsing) : py_scope.
Notation "m ;;; k" := (bind m (fun _ => k))
  (at level 100, k at level 200, right associativity, only parsing) : py_scope.
Local Open Scope py_scope.

(** ** The file tree: POSIX path resolution, [os.mkdir], [os.stat], [open] *)

Module Posix.

(** A node of the tree.  Directories carry the two permission bits that
    path resolution and entry creation consult for the calling process
    (search and write); regular files hold their contents. *)
Inductive node :=
| File (content : string)
| Dir (searchable writable : bool).

(** The tree is keyed by canonical absolute component lists: [[]] is the
    root directory [/].  There are no symbolic or hard links. *)
Abbreviation key := (list string).
Abbreviation tree := (gmap (list string) node).

Record FS := mkFS { fs_tree : tree; fs_cwd : key }.

Definition NAME_MAX : nat := 255.

(** A parsed path, as [pathlib.PurePosixPath] keeps it: whether it is
    anchored at the root, and its components (no empty one, no ["."],
    [".."] kept). *)
Record PurePath := mkPath { absolute : bool; parts : list string }.

Global Instance node_eq_dec : EqDecision node.
Proof. solve_decision. Defined.
Global Instance PurePath_eq_dec : EqDecision PurePath.
Proof. solve_decision. Defined.

(** Splitting a string at every occurrence of a separator character. *)
Fixpoint split_char (sep : ascii) (s : string) : list string :=
  match s with
  | EmptyString => [EmptyString]
  | String c s' =>
      if Ascii.eqb c sep then EmptyString :: split_char sep s'
      else match split_char sep s' with
           | h :: t => String c h :: t
           | [] => [String c EmptyString]
           end
  end.

Definition split_slash : string -> list string := split_char "/"%char.

Definition kept_part (c : string) : bool :=
  negb (String.eqb c "") && negb (String.eqb c ".").

Definition starts_with_slash (s : string) : bool :=
  match s with
  | String c _ => Ascii.eqb c "/"%char
  | EmptyString => false
  end.

(** [Path(s)]. *)
Definition Path (s : string) : PurePath :=
  {| absolute := starts_with_slash s;
     parts := filter (fun c => kept_part c = true) (split_slash s) |}.

(** [p / s]: an anchored right operand replaces the left one. *)
Definition joinpath (p : PurePath) (s : string) : PurePath :=
  let q := Path s in
  if absolute q then q
  else {| absolute := absolute p; parts := parts p ++ parts q |}.

(** [p.parent], purely lexical. *)
Definition parent (p : PurePath) : PurePath :=
  {| absolute := absolute p; parts := removelast (parts p) |}.

(** [str(p)]. *)
Definition path_str (p : PurePath) : string :=
  match parts p with
  | [] => if absolute p then "/" else "."
  | cs => (if absolute p then "/" else "") +:+ String.concat "/" cs
  end.

Fixpoint has_nul (s : string) : bool :=
  match s with
  | EmptyString => false
  | String c s' => Ascii.eqb c "000"%char || has_nul s'
  end.

Definition path_has_nul (p : PurePath) : bool := existsb has_nul (parts p).

(** *** Path resolution *)

(** One step of resolution: from the directory at [cur], take component
    [c].  The directory must exist and be searchable. *)
Definition dir_step (t : tree) (cur : key) (c : string) : errno + key :=
  match t !! cur with
  | None => inl ENOENT
  | Some (File _) => inl ENOTDIR
  | Some (Dir x _) =>
      if negb x then inl EACCES
      else if NAME_MAX <? String.length c then inl ENAMETOOLONG
      else if String.eqb c ".." then inr (removelast cur)
      else inr (cur ++ [c])
  end.

Fixpoint walk (t : tree) (cur : key) (cs : list string) : errno + key :=
  match cs with
  | [] => inr cur
  | c :: cs' =>
      match dir_step t cur c with
      | inl e => inl e
      | inr cur' => walk t cur' cs'
      end
  end.

Definition start (fs : FS) (p : PurePath) : key :=
  if absolute p then [] else fs_cwd fs.

(** Resolution of a whole path to the key it denotes, and the node
    there. *)
Definition resolve (fs : FS) (p : PurePath) : errno + (key * node) :=
  match walk (fs_tree fs) (start fs p) (parts p) with
  | inl e => inl e
  | inr k =>
      match fs_tree fs !! k with
      | None => inl ENOENT
      | Some n => inr (k, n)
      end
  end.

Definition errno_name (e : errno) : string :=
  match e with
  | ENOENT => "[Errno 2] No such file or directory"
  | EACCES => "[Errno 13] Permission denied"
  | EEXIST => "[Errno 17] File exists"
  | ENOTDIR => "[Errno 20] Not a directory"
  | EISDIR => "[Errno 21] Is a directory"
  | ENAMETOOLONG => "[Errno 36] File name too long"
  end.

Definition os_error (e : errno) (p : PurePath) : exc :=
  Exc (OSError e) (errno_name e +:+ ": '" +:+ path_str p +:+ "'").

Definition null_byte_error : exc := Exc ValueError "embedded null byte".

(** *** System calls, as functions of the file system *)

(** [os.stat(p)]. *)
Definition os_stat (p : PurePath) (fs : FS) : Res node :=
  if path_has_nul p then Raise null_byte_error
  else match resolve fs p with
       | inl e => Raise (os_error e p)
       | inr (_, n) => Ok n
       end.

(** Where a new entry named by the last component of [p] would go: the
    key of the entry and the write bit of the directory holding it.
    A path without a last component, or one ending in [".."], names an
    existing directory. *)
Definition entry_slot (fs : FS) (p : PurePath) : errno + (key * bool) :=
  match rev (parts p) with
  | [] => inl EEXIST
  | c :: rinit =>
      match walk (fs_tree fs) (start fs p) (rev rinit) with
      | inl e => inl e
      | inr pk =>
          match dir_step (fs_tree fs) pk c with
          | inl e => inl e
          | inr k =>
              if String.eqb c ".." then inl EEXIST
              else match fs_tree fs !! pk with
                   | Some (Dir _ w) => inr (k, w)
                   | _ => inl ENOTDIR
                   end
          end
      end
  end.

(** [os.mkdir(p)]: the new directory is searchable and writable. *)
Definition os_mkdir (p : PurePath) (fs : FS) : Res unit * FS :=
  if path_has_nul p then (Raise null_byte_error, fs)
  else match entry_slot fs p with
       | inl e => (Raise (os_error e p), fs)
       | inr (k, w) =>
           match fs_tree fs !! k with
           | Some _ => (Raise (os_error EEXIST p), fs)
           | None =>
               if w then
                 (Ok tt, mkFS (<[k := Dir true true]> (fs_tree fs)) (fs_cwd fs))
               else (Raise (os_error EACCES p), fs)
           end
       end.

(** [open(p, 'w')]: create or truncate; the result is the key of the
    open file. *)
Definition open_w (p : PurePath) (fs : FS) : Res key * FS :=
  if path_has_nul p then (Raise null_byte_error, fs)
  else match entry_slot fs p with
       | inl EEXIST => (Raise (os_error EISDIR p), fs)
       | inl e => (Raise (os_error e p), fs)
       | inr (k, w) =>
           match fs_tree fs !! k with
           | Some (Dir _ _) => (Raise (os_error EISDIR p), fs)
           | Some (File _) =>
               (Ok k, mkFS (<[k := File ""]> (fs_tree fs)) (fs_cwd fs))
           | None =>
               if w then
                 (Ok k, mkFS (<[k := File ""]> (fs_tree fs)) (fs_cwd fs))
               else (Raise (os_error EACCES p), fs)
           end
       end.

(** [f.write(s)] on a file opened for writing: appends at the key. *)
Definition write (k : key) (s : string) (fs : FS) : FS :=
  match fs_tree fs !! k with
  | Some (File c) => mkFS (<[k := File (c +:+ s)]> (fs_tree fs)) (fs_cwd fs)
  | _ => fs
  end.

(** [open(p, 'r')] followed by reading the whole stream. *)
Definition open_r (p : PurePath) (fs : FS) : Res string :=
  if path_has_nul p then Raise null_byte_error
  else match resolve fs p with
       | inl e => Raise (os_error e p)
       | inr (_, Dir _ _) => Raise (os_error EISDIR p)
       | inr (_, File c) => Ok c
       end.

End Posix.

Export Posix.

(** ** [pathlib.Path] methods used by the store *)

Module Pathlib.

Definition stat (p : PurePath) : M FS node := fun fs => (os_stat p fs, fs).

(** [pathlib._ignore_error]: the [errno] values that mean "not there"
    ([ENOENT], [ENOTDIR]; [EBADF] and [ELOOP] do not occur in the model). *)
Definition ignore_error (e : exc) : bool :=
  match exc_cls e with
  | OSError ENOENT | OSError ENOTDIR => true
  | _ => false
  end.

(** [Path.exists()] (CPython 3.10 to 3.12): an [OSError] that is not one of
    the ignored ones is re-raised. *)
Definition Path_exists (p : PurePath) : M FS bool :=
  try_except
    (stat p ;;; ret true)
    [ (is_IOError, fun e => if negb (ignore_error e) then raise e else ret false);
      (is_ValueError, fun _ => ret false) ].

Definition S_ISDIR (n : node) : bool :=
  match n with Dir _ _ => true | File _ => false end.

(** [Path.is_dir()]. *)
Definition Path_is_dir (p : PurePath) : M FS bool :=
  try_except
    (n <- stat p ;; ret (S_ISDIR n))
    [ (is_IOError, fun e => if negb (ignore_error e) then raise e else ret false);
      (is_ValueError, fun _ => ret false) ].

(** The [except OSError] clause of [Path.mkdir]:
    [if not exist_ok or not self.is_dir(): raise]. *)
Definition mkdir_exists_clause (p : PurePath) (exist_ok : bool) : clause FS unit :=
  (is_IOError,
   fun e =>
     if negb exist_ok then raise e
     else d <- Path_is_dir p ;; if negb d then raise e else ret tt).

(** [self.mkdir(mode, parents=False, exist_ok=exist_ok)]. *)
Definition mkdir_once (p : PurePath) (exist_ok : bool) : M FS unit :=
  try_except
    (os_mkdir p)
    [ (is_FileNotFoundError, fun e => raise e);
      mkdir_exists_clause p exist_ok ].

(** [Path.mkdir(parents, exist_ok)], by recursion on the reversed
    components: the parent of the path with reversed components [c :: r] has
    reversed components [r], and a path without components is its own
    parent. *)
Fixpoint mkdir_rev (abs : bool) (rparts : list string)
    (parents exist_ok : bool) : M FS unit :=
  let p := mkPath abs (rev rparts) in
  try_except
    (os_mkdir p)
    [ (is_FileNotFoundError,
       fun e =>
         match rparts with
         | [] => raise e
         | _ :: rparent =>
             if negb parents then raise e
             else mkdir_rev abs rparent true true ;;; mkdir_once p exist_ok
         end);
      mkdir_exists_clause p exist_ok ].

Definition Path_mkdir (p : PurePath) (parents exist_ok : bool) : M FS unit :=
  mkdir_rev (absolute p) (rev (parts p)) parents exist_ok.

End Pathlib.

Export Pathlib.

(** ** Document values *)

(** The values a YAML document denotes for [yaml.safe_load]: the tagged
    union of null, booleans, integers, strings, sequences and string-keyed
    mappings.  [PyNone] is Python's [None]. *)
Inductive PyValue :=
| PyNone
| PyBool (b : bool)
| PyInt (z : Z)
| PyStr (s : string)
| PyList (items : list PyValue)
| PyDict (items : list (string * PyValue)).

(** Deep equality, Python's [==] on these values: mappings compare without
    regard to the order of their items (keys are distinct). *)
Fixpoint deep_eq (a b : PyValue) : bool :=
  match a, b with
  | PyNone, PyNone => true
  | PyBool x, PyBool y => Bool.eqb x y
  | PyInt x, PyInt y => (x =? y)%Z
  | PyStr x, PyStr y => String.eqb x y
  | PyList xs, PyList ys =>
      (fix go (xs ys : list PyValue) : bool :=
         match xs, ys with
         | [], [] => true
         | x :: xs', y :: ys' => deep_eq x y && go xs' ys'
         | _, _ => false
         end) xs ys
  | PyDict xs, PyDict ys =>
      (length xs =? length ys) &&
      (fix all (xs : list (string * PyValue)) : bool :=
         match xs with
         | [] => true
         | (k, v) :: xs' =>
             (fix find (ys : list (string * PyValue)) : bool :=
                match ys with
                | [] => false
                | (k', v') :: ys' =>
                    if String.eqb k k' then deep_eq v v' else find ys'
                end) ys && all xs'
         end) xs
  | _, _ => false
  end.

(** ** Logging *)

Inductive level := INFO | WARNING | ERROR.

Record LogRecord := mkLog { lvl : level; message : string }.

Global Instance level_eq_dec : EqDecision level.
Proof. solve_decision. Defined.

(** The state the store operates on: the file system and the records the
    root logger has emitted so far, oldest first.  [logging.basicConfig]
    sets the threshold to [INFO], so the three levels used are all kept. *)
Record World := mkWorld { w_fs : FS; w_log : list LogRecord }.

Definition on_fs {A} (m : M FS A) : M World A :=
  fun w =>
    match m (w_fs w) with
    | (r, fs') => (r, mkWorld fs' (w_log w))
    end.

Definition emit (l : level) (msg : string) : M World unit :=
  modify (fun w => mkWorld (w_fs w) (w_log w ++ [mkLog l msg])).

Definition logging_info : string -> M World unit := emit INFO.
Definition logging_warning : string -> M World unit := emit WARNING.
Definition logging_error : string -> M World unit := emit ERROR.

(** ** The template store ([src/components/store.py]) *)

(** The default of the [template_dir] argument of both functions. *)
Definition DEFAULT_TEMPLATE_DIR : string := "templates".

Section TemplateStore.

(** The representation of the Python object handed to [store_template]. *)
Context {Data : Type}.

(** [yaml.dump(data, stream, default_flow_style=False)]: the text written
    to the stream and, when the call fails, the exception it raises after
    that text. *)
Variable yaml_dump : Data -> string * option exc.

(** [yaml.safe_load(stream)] on the text read from the stream. *)
Variable yaml_safe_load : string -> Res PyValue.

(** [yaml.dump(data, f)] for the file open at key [f]. *)
Definition yaml_dump_to (data : Data) (f : key) : M World unit :=
  (on_fs (modify (write f (yaml_dump data).1))) ;;;
  match (yaml_dump data).2 with
  | None => ret tt
  | Some e => raise e
  end.

(** [yaml.safe_load(f)] for the file at [p], inside [with open(p, 'r')]. *)
Definition yaml_safe_load_from (p : PurePath) : M World PyValue :=
  c <- on_fs (fun fs => (open_r p fs, fs)) ;;
  lift (yaml_safe_load c).

Definition template_file (name template_dir : string) : PurePath :=
  joinpath (Path template_dir) (name +:+ ".yaml").

Definition store_template (data : Data) (name template_dir : string)
  : M World bool :=
  try_except
    (let template_path := Path template_dir in
     on_fs (Path_mkdir template_path true true) ;;;
     let file_path := joinpath template_path (name +:+ ".yaml") in
     (f <- on_fs (open_w file_path) ;;
      yaml_dump_to data f) ;;;
     logging_info ("Template '" +:+ name +:+ "' stored successfully at '"
                   +:+ path_str file_path +:+ "'") ;;;
     ret true)
    [ (is_IOError,
       fun e =>
         logging_error ("Failed to write to file for template '" +:+ name
                        +:+ "': " +:+ exc_msg e) ;;;
         ret false);
      (is_YAMLError,
       fun e =>
         logging_error ("YAML error while storing template '" +:+ name
                        +:+ "': " +:+ exc_msg e) ;;;
         ret false);
      (is_Exception,
       fun e =>
         logging_error ("An unexpected error occurred during storage of template '"
                        +:+ name +:+ "': " +:+ exc_msg e) ;;;
         ret false) ].

Definition load_template (name template_dir : string) : M World PyValue :=
  let file_path := joinpath (Path template_dir) (name +:+ ".yaml") in
  found <- on_fs (Path_exists file_path) ;;
  if negb found then
    logging_warning ("Template file not found for '" +:+ name +:+ "' at '"
                     +:+ path_str file_path +:+ "'") ;;;
    ret PyNone
  else
    try_except
      (data <- yaml_safe_load_from file_path ;;
       logging_info ("Template '" +:+ name +:+ "' loaded successfully from '"
                     +:+ path_str file_path +:+ "'") ;;;
       ret data)
      [ (is_IOError,
         fun e =>
           logging_error ("Failed to read file for template '" +:+ name
                          +:+ "': " +:+ exc_msg e) ;;;
           ret PyNone);
        (is_YAMLError,
         fun e =>
           logging_error ("YAML error while loading template '" +:+ name
                          +:+ "': " +:+ exc_msg e) ;;;
           ret PyNone);
        (is_Exception,
         fun e =>
           logging_error ("An unexpected error occurred during loading of template '"
                          +:+ name +:+ "': " +:+ exc_msg e) ;;;
           ret PyNone) ].

End TemplateStore.

(** ** A reference codec for a fragment of YAML

    The store is verified for any codec.  To run the model on concrete
    inputs this module implements the two codec functions on the documents
    PyYAML writes in block style for the null value, for a plain one-line
    string, for a list of such strings and for a mapping from plain keys to
    such strings (items sorted by key).  Every other text is reported as a
    scanner error and every other value as a representer error (both are
    [yaml.YAMLError]); PyYAML reads and writes more than this fragment, so
    the codec is only run on documents inside it and on the ill-formed text
    of the fourth test of [store.py]. *)

Module FlatYaml.

Definition nl : string := String "010"%char EmptyString.

Definition is_letter (c : ascii) : bool :=
  let n := nat_of_ascii c in
  ((65 <=? n) && (n <=? 90)) || ((97 <=? n) && (n <=? 122)).

Definition is_plain_char (c : ascii) : bool :=
  let n := nat_of_ascii c in
  is_letter c || ((48 <=? n) && (n <=? 57))
  || Ascii.eqb c " " || Ascii.eqb c "." || Ascii.eqb c "," || Ascii.eqb c "_".

Fixpoint all_chars (f : ascii -> bool) (s : string) : bool :=
  match s with
  | EmptyString => true
  | String c s' => f c && all_chars f s'
  end.

Fixpoint last_char (s : string) : option ascii :=
  match s with
  | EmptyString => None
  | String c EmptyString => Some c
  | String _ s' => last_char s'
  end.

(** Words the YAML 1.1 resolver reads as null or as a boolean. *)
Definition resolver_words : list string :=
  [ "null"; "Null"; "NULL"; "true"; "True"; "TRUE"; "false"; "False"; "FALSE";
    "yes"; "Yes"; "YES"; "no"; "No"; "NO"; "on"; "On"; "ON";
    "off"; "Off"; "OFF"; "y"; "Y"; "n"; "N" ].

(** Strings the emitter writes as they are, on one line, and the resolver
    reads back as strings. *)
Definition plain (s : string) : bool :=
  match s with
  | EmptyString => false
  | String c _ =>
      is_letter c && all_chars is_plain_char s
      && negb (bool_decide (last_char s = Some " "%char))
      && negb (existsb (String.eqb s) resolver_words)
      && (String.length s <=? 38)
  end.

Fixpoint insert_sorted (kv : string * string) (l : list (string * string))
  : list (string * string) :=
  match l with
  | [] => [kv]
  | kv' :: l' =>
      if String.leb kv.1 kv'.1 then kv :: l else kv' :: insert_sorted kv l'
  end.

Definition sort_items (l : list (string * string)) : list (string * string) :=
  foldr insert_sorted [] l.

Definition as_plain_str (v : PyValue) : option string :=
  match v with
  | PyStr s => if plain s then Some s else None
  | _ => None
  end.

Definition as_plain_item (kv : string * PyValue) : option (string * string) :=
  if plain kv.1 then
    match as_plain_str kv.2 with Some v => Some (kv.1, v) | None => None end
  else None.

Definition representer_error : exc :=
  Exc YAMLError "cannot represent an object outside the block fragment".

Definition scanner_error : exc :=
  Exc YAMLError "while scanning a block document: unexpected content".

Definition concat_lines (ls : list string) : string :=
  foldr (fun l acc => l +:+ nl +:+ acc) "" ls.

Definition dump (d : PyValue) : string * option exc :=
  match d with
  | PyNone => (concat_lines ["null"; "..."], None)
  | PyStr s =>
      if plain s then (concat_lines [s; "..."], None)
      else ("", Some representer_error)
  | PyList [] => (concat_lines ["[]"], None)
  | PyList items =>
      match mapM as_plain_str items with
      | Some ss => (concat_lines (map (fun s => "- " +:+ s) ss), None)
      | None => ("", Some representer_error)
      end
  | PyDict [] => (concat_lines ["{}"], None)
  | PyDict items =>
      match mapM as_plain_item items with
      | Some kvs =>
          if bool_decide (NoDup kvs.*1) then
            (concat_lines (map (fun kv => kv.1 +:+ ": " +:+ kv.2) (sort_items kvs)),
             None)
          else ("", Some representer_error)
      | None => ("", Some representer_error)
      end
  | _ => ("", Some representer_error)
  end.

(** The lines of a text; a final line break does not open a new line. *)
Definition lines (text : string) : list string :=
  match rev (split_char "010"%char text) with
  | EmptyString :: r => rev r
  | r => rev r
  end.

Definition parse_entry (l : string) : option string :=
  match l with
  | String "-" (String " " s) => if plain s then Some s else None
  | _ => None
  end.

Fixpoint parse_pair_from (k : string) (l : string) : option (string * string) :=
  match l with
  | String ":" (String " " v) =>
      if plain k && plain v then Some (k, v) else None
  | String c l' => parse_pair_from (k +:+ String c EmptyString) l'
  | EmptyString => None
  end.

Definition parse_pair : string -> option (string * string) := parse_pair_from "".

(** [dict[k] = v]: a repeated key keeps its place and takes the new value. *)
Fixpoint dict_set (k : string) (v : PyValue) (d : list (string * PyValue))
  : list (string * PyValue) :=
  match d with
  | [] => [(k, v)]
  | (k', v') :: d' =>
      if String.eqb k k' then (k, v) :: d' else (k', v') :: dict_set k v d'
  end.

Definition drop_document_end (ls : list string) : list string :=
  match ls with
  | [l; "..."] => [l]
  | _ => ls
  end.

Definition safe_load (text : string) : Res PyValue :=
  match drop_document_end (lines text) with
  | [] => Ok PyNone
  | ["null"] => Ok PyNone
  | ["{}"] => Ok (PyDict [])
  | ["[]"] => Ok (PyList [])
  | ls =>
      let scalar :=
        match ls with
        | [l] => if plain l then Some (PyStr l) else None
        | _ => None
        end in
      let sequence :=
        (fun ss => PyList (map PyStr ss)) <$> mapM parse_entry ls in
      let mapping :=
        (fun kvs => PyDict (foldl (fun d kv => dict_set kv.1 (PyStr kv.2) d) [] kvs))
          <$> mapM parse_pair ls in
      match scalar ∪ sequence ∪ mapping with
      | Some v => Ok v
      | None => Raise scanner_error
      end
  end.

End FlatYaml.

(** ** The prompt executor ([src/components/prompt_executor.py], [main.py]) *)

(** The state of a Python process that talks to the remote model: its
    environment variables, the variables a [.env] file would add, the API
    key the [genai] client is configured with, what it printed, and the
    requests it sent to the remote capability, oldest first. *)
Record Process := mkProcess {
  environ : gmap string string;
  dotenv_file : gmap string string;
  configured_key : option string;
  stdout : list string;
  requests : list (string * string)
}.

Definition print (line : string) : M Process unit :=
  modify (fun p => mkProcess (environ p) (dotenv_file p) (configured_key p)
                             (stdout p ++ [line]) (requests p)).

(** [os.getenv(name)]. *)
Definition os_getenv (name : string) : M Process (option string) :=
  gets (fun p => environ p !! name).

(** [load_dotenv()]: variables of the [.env] file are added to the
    environment; variables already set are kept. *)
Definition load_dotenv : M Process unit :=
  modify (fun p => mkProcess (environ p ∪ dotenv_file p) (dotenv_file p)
                             (configured_key p) (stdout p) (requests p)).

(** [genai.configure(api_key=k)]. *)
Definition genai_configure (k : option string) : M Process unit :=
  modify (fun p => mkProcess (environ p) (dotenv_file p) k
                             (stdout p) (requests p)).

(** Python truthiness of [os.getenv]'s result: [None] and the empty string
    are falsy. *)
Definition truthy (v : option string) : bool :=
  match v with
  | None => false
  | Some s => negb (String.eqb s "")
  end.

(** How a module-level script ends: the interpreter goes on past it, or
    [exit(code)] terminates the process. *)
Inductive startup :=
| Loaded
| SystemExit (code : Z).

Section PromptExecutor.

(** The remote capability [generate(model_identifier, prompt)], as seen
    through the client library: the answer depends on the configured key,
    the model name, the prompt and the number of requests sent before. *)
Context {Response : Type}.
Variable remote_generate :
  option string -> string -> string -> nat -> Res Response.

(** The [text] property of a response; it raises when the response holds
    no text. *)
Variable response_text : Response -> Res string.

(** [genai.GenerativeModel(model_name).generate_content(prompt)]: the
    construction of the model object and the request, as one call whose
    outcome is that of the remote capability. *)
Definition generate_content (model_name prompt : string) : M Process Response :=
  fun p =>
    (remote_generate (configured_key p) model_name prompt (length (requests p)),
     mkProcess (environ p) (dotenv_file p) (configured_key p) (stdout p)
               (requests p ++ [(model_name, prompt)])).

(** The default of the [model_name] argument. *)
Definition DEFAULT_MODEL : string := "gemini-2.5-flash".

(** Lines 6 to 13 of [prompt_executor.py], run when the module is loaded. *)
Definition prompt_executor_startup : M Process startup :=
  try_except
    (api_key <- os_getenv "GOOGLE_API_KEY" ;;
     (if negb (truthy api_key)
      then raise (Exc ValueError "GOOGLE_API_KEY environment variable not set.")
      else ret tt) ;;;
     genai_configure api_key ;;;
     ret Loaded)
    [ (is_ValueError,
       fun e =>
         print ("Error configuring Google Generative AI: " +:+ exc_msg e) ;;;
         ret (SystemExit 1)) ].

(** [execute_prompt] of [prompt_executor.py]; the result [None] is
    Python's [None]. *)
Definition execute_prompt (prompt model_name : string)
  : M Process (option string) :=
  try_except
    (response <- generate_content model_name prompt ;;
     text <- lift (response_text response) ;;
     ret (Some text))
    [ (is_GoogleAPICallError,
       fun e => print ("API call error: " +:+ exc_msg e) ;;; ret None);
      (is_Exception,
       fun e => print ("An unexpected error occurred: " +:+ exc_msg e) ;;;
                ret None) ].

(** A process that uses the executor loads the module first; the client
    code runs only if the module-level script did not exit. *)
Definition with_prompt_executor {A} (client : M Process A)
  : M Process (Z + A) :=
  s <- prompt_executor_startup ;;
  match s with
  | SystemExit code => ret (inl code)
  | Loaded => a <- client ;; ret (inr a)
  end.

End PromptExecutor.

(** [main.py]. *)
Module Main.

Section Script.

Context {Response : Type}.
Variable remote_generate :
  option string -> string -> string -> nat -> Res Response.
Variable response_text : Response -> Res string.

(** [execute_prompt(prompt)] of [main.py]: no handler; the text is printed
    and nothing is returned. *)
Definition execute_prompt (google_api_key : option string) (prompt : string)
  : M Process unit :=
  genai_configure google_api_key ;;;
  response <- generate_content remote_generate "gemini-2.5-pro" prompt ;;
  text <- lift (response_text response) ;;
  print text.

(** [main()] of [main.py]; the [__main__] block does not call it. *)
Definition main : M Process unit :=
  print "Hello from metapromptingframework!".

(** [python main.py]: the module-level statements, then the [__main__]
    block. *)
Definition script : M Process unit :=
  load_dotenv ;;;
  google_api_key <- os_getenv "GOOGLE_API_KEY" ;;
  execute_prompt google_api_key "Hello".

End Script.

End Main.

(** Exit status of a script: an exception that reaches the top level ends
    the process with status 1. *)
Definition exit_status {A} (m : M Process A) (p : Process) : Z * Process :=
  match m p with
  | (Ok _, p') => (0%Z, p')
  | (Raise _, p') => (1%Z, p')
  end.

(** A remote capability for concrete runs: it accepts one key and answers
    with the prompt it was given. *)
Module DemoRemote.

Definition valid_key (k : string) : bool := String.eqb k "sk-valid".

Definition generate (key : option string) (model_name prompt : string)
    (n : nat) : Res string :=
  match key with
  | Some k =>
      if valid_key k then Ok ("echo: " +:+ prompt)
      else Raise (Exc GoogleAPICallError "400 API key not valid.")
  | None => Raise (Exc RuntimeError "No API_KEY or ADC found.")
  end.

Definition text (r : string) : Res string :=
  if String.eqb r "echo: " then Raise (Exc ValueError "response has no text")
  else Ok r.

Definition process (env : gmap string string) : Process :=
  mkProcess env ∅ None [] [].

End DemoRemote.

(** ** Vocabulary of the statements *)

(** The node at a key is not a directory (there is none, or a file). *)
Definition not_dir (o : option node) : Prop := forall x w, o <> Some (Dir x w).

(** The [errno] values that [pathlib] reads as "the path is not there". *)
Definition ignorable_errno (e : errno) : bool :=
  match e with
  | ENOENT | ENOTDIR => true
  | _ => false
  end.

(** A regular file with contents [c] is found at path [p]. *)
Definition file_present (fs : FS) (p : PurePath) (c : string) : Prop :=
  path_has_nul p = false /\ exists k, resolve fs p = inr (k, File c).

(** Path resolution finds nothing at [p]: an entry on the way or the last
    one is missing ([ENOENT]) or a regular file stands where a directory is
    needed ([ENOTDIR]). *)
Definition file_absent (fs : FS) (p : PurePath) : Prop :=
  resolve fs p = inl ENOENT \/ resolve fs p = inl ENOTDIR.

(** The text of the record that a failed [store_template] logs: the one of
    the first [except] clause that matches. *)
Definition store_error_message (name : string) (e : exc) : string :=
  if is_IOError e then
    "Failed to write to file for template '" +:+ name +:+ "': " +:+ exc_msg e
  else if is_YAMLError e then
    "YAML error while storing template '" +:+ name +:+ "': " +:+ exc_msg e
  else
    "An unexpected error occurred during storage of template '" +:+ name
    +:+ "': " +:+ exc_msg e.

Definition load_error_message (name : string) (e : exc) : string :=
  if is_IOError e then
    "Failed to read file for template '" +:+ name +:+ "': " +:+ exc_msg e
  else if is_YAMLError e then
    "YAML error while loading template '" +:+ name +:+ "': " +:+ exc_msg e
  else
    "An unexpected error occurred during loading of template '" +:+ name
    +:+ "': " +:+ exc_msg e.

Definition stored_message (name template_dir : string) : string :=
  "Template '" +:+ name +:+ "' stored successfully at '"
  +:+ path_str (template_file name template_dir) +:+ "'".

Definition loaded_message (name template_dir : string) : string :=
  "Template '" +:+ name +:+ "' loaded successfully from '"
  +:+ path_str (template_file name template_dir) +:+ "'".

Definition not_found_message (name template_dir : string) : string :=
  "Template file not found for '" +:+ name +:+ "' at '"
  +:+ path_str (template_file name template_dir) +:+ "'".

(** The world with file system [fs] and one more log record. *)
Definition logged (l : level) (msg : string) (fs : FS) (w : World) : World :=
  mkWorld fs (w_log w ++ [mkLog l msg]).

(** A value is serializable by a codec when the codec writes it without a
    fault and reads the text back as a value deep-equal to it. *)
Definition round_trips (yaml_dump : PyValue -> string * option exc)
    (yaml_safe_load : string -> Res PyValue) (d : PyValue) : Prop :=
  (yaml_dump d).2 = None
  /\ exists d', yaml_safe_load (yaml_dump d).1 = Ok d' /\ deep_eq d' d = true.

(** A directory is found at path [p]. *)
Definition is_directory (fs : FS) (p : PurePath) : Prop :=
  path_has_nul p = false
  /\ exists k x w, resolve fs p = inr (k, Dir x w).

(** A component that names an entry of a directory: not [".."], and not
    longer than the file system allows. *)
Definition valid_component (c : string) : Prop :=
  c <> ".." /\ String.length c <= NAME_MAX.

(** The directory path [p] does not exist and can be created: a leading
    part of it resolves to a directory that the process may search and
    write, at least one component follows, and nothing exists at or below
    the first of the following components. *)
Definition creatable (fs : FS) (p : PurePath) : Prop :=
  path_has_nul p = false
  /\ exists pre first rest base,
       parts p = pre ++ first :: rest
       /\ walk (fs_tree fs) (start fs p) pre = inr base
       /\ fs_tree fs !! base = Some (Dir true true)
       /\ Forall valid_component (first :: rest)
       /\ map_Forall (fun k _ => ~ ((base ++ [first]) `prefix_of` k)) (fs_tree fs).

Fixpoint has_char (a : ascii) (s : string) : bool :=
  match s with
  | EmptyString => false
  | String c s' => Ascii.eqb c a || has_char a s'
  end.

(** A name that is one path component once [".yaml"] is added: no ["/"],
    no null byte, short enough. *)
Definition filename_stem (n : string) : bool :=
  negb (has_char "/" n) && negb (has_nul n)
  && (String.length n + 5 <=? NAME_MAX).

(** The value can be written: [yaml.dump] raises nothing for it. *)
Definition dumps {Data} (yaml_dump : Data -> string * option exc) (d : Data)
  : Prop :=
  (yaml_dump d).2 = None.

(** *** The executor *)

(** What [execute_prompt] is to return for an outcome of the remote call:
    the text of the response when the call and the extraction of the text
    both succeed, [None] otherwise. *)
Definition generated_text {Response} (response_text : Response -> Res string)
    (outcome : Res Response) : option string :=
  match outcome with
  | Ok r => match response_text r with Ok t => Some t | Raise _ => None end
  | Raise _ => None
  end.

(** The fault of a call, if any: the one of the request, else the one of
    the extraction of the text. *)
Definition call_fault {Response} (response_text : Response -> Res string)
    (outcome : Res Response) : option exc :=
  match outcome with
  | Ok r => match response_text r with Ok _ => None | Raise e => Some e end
  | Raise e => Some e
  end.

Definition executor_error_line (e : exc) : string :=
  if is_GoogleAPICallError e then "API call error: " +:+ exc_msg e
  else "An unexpected error occurred: " +:+ exc_msg e.

(** The process after one request and, for a fault, one printed line. *)
Definition after_request (model_name prompt : string) (fault : option exc)
    (p : Process) : Process :=
  mkProcess (environ p) (dotenv_file p) (configured_key p)
    (stdout p ++ match fault with
                 | Some e => [executor_error_line e]
                 | None => []
                 end)
    (requests p ++ [(model_name, prompt)]).

(** No valid credential can be resolved from the configuration of the
    process (its environment and its [.env] file), for a given notion of
    validity of a key. *)
Definition no_valid_credential (valid : string -> bool) (p : Process) : Prop :=
  forall k, (environ p ∪ dotenv_file p) !! "GOOGLE_API_KEY" = Some k ->
            valid k = false.

(** A script fails fast: it ends with a non-zero exit status and has sent
    no request. *)
Definition fails_fast {A} (script : M Process (Z + A)) (p : Process) : Prop :=
  exists code p',
    script p = (Ok (inl code), p') /\ code <> 0%Z /\ requests p' = requests p.

Definition missing_key_line : string :=
  "Error configuring Google Generative AI: "
  +:+ "GOOGLE_API_KEY environment variable not set.".

(** ** Concrete worlds *)

Module Demo.

(** A working directory [/home] in which everything may be created. *)
Definition home_tree : gmap (list string) node :=
  {[ [] := Dir true true; ["home"] := Dir true true ]}.

Definition home_fs : FS := mkFS home_tree ["home"].

Definition home : World := mkWorld home_fs [].

(** The template of the concrete scenario of the specification. *)
Definition greeting : PyValue :=
  PyDict [("role", PyStr "system");
          ("content", PyStr "You are a helpful assistant.")].

Definition summary : PyValue := PyDict [("prompt", PyStr "Generate a summary.")].

(** [/home/t] holds a template with ill-formed contents (the text of the
    fourth test of [store.py]) and an empty one. *)
Definition invalid_text : string :=
  "role: system" +:+ FlatYaml.nl +:+ "content: - this is not valid yaml".

Definition t_fs : FS :=
  mkFS (<[ ["home"; "t"; "empty.yaml"] := File "" ]>
        (<[ ["home"; "t"; "invalid_yaml_template.yaml"] := File invalid_text ]>
         (<[ ["home"; "t"] := Dir true true ]> home_tree)))
       ["home"].

(** [/home/vault] holds the greeting template, but the process may not
    search the directory (mode [000] for another user's process). *)
Definition vault_fs : FS :=
  mkFS (<[ ["home"; "vault"; "greeting.yaml"] := File "role: system" ]>
        (<[ ["home"; "vault"] := Dir false false ]> home_tree))
       ["home"].

(** [/home/ro] is a directory in which nothing may be created. *)
Definition ro_fs : FS :=
  mkFS (<[ ["home"; "ro"] := Dir true false ]> home_tree) ["home"].

End Demo.

(** ** Python objects with sharing and cycles

    [store_template] accepts any Python object, among them containers that
    refer to themselves (the fifth test of [store.py]).  Such values are
    object graphs: a heap of objects named by their identity, containers
    holding references, and a root.

    [yaml.dump] turns the graph into a stream of events by a depth-first
    traversal that keeps the set of the containers it has met (PyYAML's
    [represented_objects] and [serialized_nodes]): a container met again is
    written as an alias of its first occurrence, and only containers met
    more than once keep an anchor.  The recursion is as deep as the
    containers nest, and the interpreter bounds it: beyond the limit a
    [RecursionError] is raised. *)

Module ObjGraph.

Inductive pyobj :=
| ONone
| OBool (b : bool)
| OInt (z : Z)
| OStr (s : string)
| OList (items : list nat)
| ODict (items : list (string * nat)).

Record graph := mkGraph { heap : gmap nat pyobj; root : nat }.

Definition is_container (o : pyobj) : bool :=
  match o with
  | OList _ | ODict _ => true
  | _ => false
  end.

Definition children (o : pyobj) : list nat :=
  match o with
  | OList items => items
  | ODict items => items.*2
  | _ => []
  end.

(** The object [a] holds a reference to the object [b]. *)
Definition refers (h : gmap nat pyobj) (a b : nat) : Prop :=
  exists o, h !! a = Some o /\ b ∈ children o.

(** The value contains a self-reference: some object that can be reached
    from the root can be reached from itself. *)
Definition has_cycle (g : graph) : Prop :=
  exists a, rtc (refers (heap g)) (root g) a /\ tc (refers (heap g)) a a.

(** Every reference points to an object of the heap, and so does the
    root. *)
Definition closed (g : graph) : Prop :=
  is_Some (heap g !! root g)
  /\ map_Forall
       (fun _ o => Forall (fun c => is_Some (heap g !! c)) (children o))
       (heap g).

Definition container_at (h : gmap nat pyobj) (x : nat) : Prop :=
  exists o, h !! x = Some o /\ is_container o = true.

(** In a traversal that writes no alias, the containers it enters can be
    ranked so that every reference from one of them to a container goes to
    one it enters as well, of lower rank. *)
Definition ranked (h : gmap nat pyobj) (new : gset nat) (rank : nat -> nat)
  : Prop :=
  forall x o y,
    x ∈ new -> h !! x = Some o -> y ∈ children o -> container_at h y ->
    y ∈ new /\ rank y < rank x.

(** The identities of the containers of a heap. *)
Definition container_ids (h : gmap nat pyobj) : gset nat :=
  dom (filter (fun io => is_container io.2 = true) h).

Inductive event :=
| ScalarEvent (value : string)
| SequenceStartEvent (anchor : option nat)
| SequenceEndEvent
| MappingStartEvent (anchor : option nat)
| MappingEndEvent
| AliasEvent (anchor : nat).

Global Instance event_eq_dec : EqDecision event.
Proof. solve_decision. Defined.

Definition recursion_error : exc :=
  Exc RecursionError "maximum recursion depth exceeded".

Definition dangling_error : exc :=
  Exc RuntimeError "reference to no object".

Definition scalar_text (o : pyobj) : string :=
  match o with
  | ONone => "null"
  | OBool true => "true"
  | OBool false => "false"
  | OInt z => pretty z
  | OStr s => s
  | _ => ""
  end.

(** The items of a container, in the order they are written: a mapping
    item is its key followed by its value, and [yaml.dump] sorts mappings
    by key. *)
Fixpoint insert_by_key {V} (kv : string * V) (l : list (string * V))
  : list (string * V) :=
  match l with
  | [] => [kv]
  | kv' :: l' =>
      if String.leb kv.1 kv'.1 then kv :: l else kv' :: insert_by_key kv l'
  end.

Definition sort_by_key {V} (l : list (string * V)) : list (string * V) :=
  foldr insert_by_key [] l.

Definition items_of (o : pyobj) : list (option string * nat) :=
  match o with
  | OList items => map (fun i => (None, i)) items
  | ODict items => map (fun kv => (Some kv.1, kv.2)) (sort_by_key items)
  | _ => []
  end.

(** The events of a list of items, given the function for one object. *)
Fixpoint serialize_items
    (node : nat -> gset nat -> Res (list event * gset nat))
    (items : list (option string * nat)) (seen : gset nat)
  : Res (list event * gset nat) :=
  match items with
  | [] => Ok ([], seen)
  | (key, i) :: items' =>
      match node i seen with
      | Raise e => Raise e
      | Ok (ev1, seen1) =>
          match serialize_items node items' seen1 with
          | Raise e => Raise e
          | Ok (ev2, seen2) =>
              Ok (match key with
                  | Some k => [ScalarEvent k]
                  | None => []
                  end ++ ev1 ++ ev2, seen2)
          end
      end
  end.

Definition start_event (o : pyobj) (id : nat) : event :=
  match o with
  | ODict _ => MappingStartEvent (Some id)
  | _ => SequenceStartEvent (Some id)
  end.

Definition end_event (o : pyobj) : event :=
  match o with
  | ODict _ => MappingEndEvent
  | _ => SequenceEndEvent
  end.

(** The events of the object [id]; [depth] is the nesting the interpreter
    still allows, [seen] the containers met so far. *)
Fixpoint serialize_node (depth : nat) (h : gmap nat pyobj) (id : nat)
    (seen : gset nat) : Res (list event * gset nat) :=
  match depth with
  | 0 => Raise recursion_error
  | S depth' =>
      match h !! id with
      | None => Raise dangling_error
      | Some o =>
          if is_container o then
            if bool_decide (id ∈ seen) then Ok ([AliasEvent id], seen)
            else
              match serialize_items (serialize_node depth' h) (items_of o)
                      ({[id]} ∪ seen) with
              | Raise e => Raise e
              | Ok (evs, seen') =>
                  Ok (start_event o id :: evs ++ [end_event o], seen')
              end
          else Ok ([ScalarEvent (scalar_text o)], seen)
      end
  end.

Definition aliased (evs : list event) : list nat :=
  omap (fun ev => match ev with AliasEvent a => Some a | _ => None end) evs.

(** Anchors are kept on the containers that an alias refers to. *)
Definition prune_anchor (keep : list nat) (ev : event) : event :=
  match ev with
  | SequenceStartEvent (Some a) =>
      SequenceStartEvent (if bool_decide (a ∈ keep) then Some a else None)
  | MappingStartEvent (Some a) =>
      MappingStartEvent (if bool_decide (a ∈ keep) then Some a else None)
  | _ => ev
  end.

(** The event stream of a value. *)
Definition serialize (limit : nat) (g : graph) : Res (list event) :=
  match serialize_node limit (heap g) (root g) ∅ with
  | Raise e => Raise e
  | Ok (evs, _) => Ok (map (prune_anchor (aliased evs)) evs)
  end.

(** [yaml.dump] on object graphs, for an emitter that writes the text of an
    event stream. *)
Definition dump (emitter : list event -> string * option exc) (limit : nat)
    (g : graph) : string * option exc :=
  match serialize limit g with
  | Raise e => ("", Some e)
  | Ok evs => emitter evs
  end.

(** An emitter for concrete runs: flow style, one line. *)
Definition anchor_text (a : option nat) : string :=
  match a with
  | Some n => "&id" +:+ pretty n +:+ " "
  | None => ""
  end.

Definition event_text (ev : event) : string :=
  match ev with
  | ScalarEvent v => v
  | SequenceStartEvent a => anchor_text a +:+ "["
  | SequenceEndEvent => "]"
  | MappingStartEvent a => anchor_text a +:+ "{"
  | MappingEndEvent => "}"
  | AliasEvent n => "*id" +:+ pretty n
  end.

Definition flow_emitter (evs : list event) : string * option exc :=
  (String.concat " " (map event_text evs), None).

(** The value of the fifth test of [store.py]:
    [d = {}; d["a"] = d]. *)
Definition self_referential : graph :=
  mkGraph {[ 0 := ODict [("a", 0)] ]} 0.

(** The nesting depth the interpreter allows in the concrete runs. *)
Definition demo_limit : nat := 300.

End ObjGraph.

(** ** The test script of [prompt_executor.py] *)

Section PromptExecutorMain.

Context {Response : Type}.
Variable remote_generate :
  option string -> string -> string -> nat -> Res Response.
Variable response_text : Response -> Res string.

Definition test_prompt : string :=
  "Explain the concept of a meta-prompt in one sentence.".

Definition nl_prefix (s : string) : string := String "010"%char s.

(** The [__main__] block of [prompt_executor.py] (lines 37 to 60);
    [if response:] is Python truthiness: [None] and the empty text are
    falsy. *)
Definition prompt_executor_main : M Process unit :=
  print "---- Running Prompt Executor Tests ----" ;;;
  print (nl_prefix "[Test 1: Valid Prompt]") ;;;
  response <- execute_prompt remote_generate response_text test_prompt
                DEFAULT_MODEL ;;
  (if truthy response then
     print ("Prompt : " +:+ test_prompt) ;;;
     print ("Response : " +:+ default "" response)
   else print "Failed to get a response from the model.") ;;;
  print (nl_prefix "[Test 2: Empty Prompt]") ;;;
  response_empty <- execute_prompt remote_generate response_text ""
                      DEFAULT_MODEL ;;
  (if truthy response_empty then
     print ("Prompt : " +:+ "") ;;;
     print ("Response : " +:+ default "" response_empty)
   else print "Handled empty prompt gracefully as expected.") ;;;
  print "---- End of Tests ----".

(** [python prompt_executor.py]: the module-level check, then the block. *)
Definition prompt_executor_script : M Process (Z + unit) :=
  with_prompt_executor prompt_executor_main.

End PromptExecutorMain.

(** ** More vocabulary *)

(** Every node of [t] is a node of [t']. *)
Definition tree_grows (t t' : gmap (list string) node) : Prop :=
  forall k n, t !! k = Some n -> t' !! k = Some n.

(** More concrete worlds. *)
Module Fixtures.

(** [/home/t] is a directory; [/home/t/notes.yaml] is a directory too, and
    [/home/t/other.yaml] a template. *)
Definition nested_fs : FS :=
  mkFS (<[ ["home"; "t"; "other.yaml"] := File "role: user" ]>
        (<[ ["home"; "t"; "notes.yaml"] := Dir true true ]>
         (<[ ["home"; "t"] := Dir true true ]> Demo.home_tree)))
       ["home"].

(** A name with an embedded null byte. *)
Definition nul_name : string := String "a" (String "000" (String "b" "")).

(** A process whose key is set in the environment. *)
Definition keyed : Process :=
  DemoRemote.process {[ "GOOGLE_API_KEY" := "sk-valid" ]}.

(** A process whose key is only in the [.env] file. *)
Definition dotenv_only : Process :=
  mkProcess ∅ {[ "GOOGLE_API_KEY" := "sk-valid" ]} None [] [].

(** A remote capability that answers every prompt with the empty text. *)
Definition silent_generate (key : option string) (model_name prompt : string)
    (n : nat) : Res string := Ok "".

Definition plain_text (r : string) : Res string := Ok r.

(** [c * n], the string of [n] characters [c]. *)
Fixpoint repeat_char (c : ascii) (n : nat) : string :=
  match n with
  | O => EmptyString
  | S n' => String c (repeat_char c n')
  end.

(** ['a' * 251]: with [".yaml"] the file name has 256 bytes, one more than
    a directory entry may have. *)
Definition long_name : string := repeat_char "a" 251.

(** The objects handed to [store_template] in the failing store: a
    document value, or a generator object. *)
Inductive PyObject :=
| Document (v : PyValue)
| Generator.

(** [yaml.dump] on these objects.  A generator has no representer of its
    own, the representer of [object] asks it for [__reduce_ex__(2)], and
    that raises [TypeError] before a single character is written. *)
Definition generator_error : exc :=
  Exc TypeError "cannot pickle 'generator' object".

Definition dump_object (o : PyObject) : string * option exc :=
  match o with
  | Document v => FlatYaml.dump v
  | Generator => ("", Some generator_error)
  end.

End Fixtures.

(** * Properties *)

Ltac run_monad :=
  unfold bind, ret, raise, try_except, on_fs, modify, gets, lift,
    logging_info, logging_warning, logging_error, emit; simpl.

(** ** Path resolution and the system calls *)

Lemma walk_app t cur a b :
  walk t cur (a ++ b) =
  match walk t cur a with inl e => inl e | inr k => walk t k b end.
Proof.
  revert cur. induction a as [|c a IH]; intros cur; simpl; [done|].
  destruct (dir_step t cur c); [done|]. apply IH.
Qed.

(** Resolution only inspects directories: changing a key that holds no
    directory leaves every successful step as it was. *)
Lemma dir_step_insert t k n cur c k' :
  dir_step t cur c = inr k' -> not_dir (t !! k) ->
  dir_step (<[k := n]> t) cur c = inr k'.
Proof.
  unfold dir_step. intros Hs Hk.
  destruct (t !! cur) as [[?|x w]|] eqn:Hcur; try done.
  rewrite lookup_insert_ne; [by rewrite Hcur|].
  intros ->. by apply (Hk x w).
Qed.

Lemma walk_insert t k n cs : forall cur k',
  walk t cur cs = inr k' -> not_dir (t !! k) ->
  walk (<[k := n]> t) cur cs = inr k'.
Proof.
  induction cs as [|c cs IH]; intros cur k' Hw Hk; simpl in *; [done|].
  destruct (dir_step t cur c) as [|cur'] eqn:Hs; [done|].
  rewrite (dir_step_insert _ _ _ _ _ _ Hs Hk). by apply IH.
Qed.

Lemma rev_cons_parts (l : list string) c r : rev l = c :: r -> l = rev r ++ [c].
Proof. intros H. by rewrite <- (rev_involutive l), H. Qed.

Lemma entry_slot_inv fs p k w :
  entry_slot fs p = inr (k, w) ->
  walk (fs_tree fs) (start fs p) (parts p) = inr k
  /\ exists pk x, fs_tree fs !! pk = Some (Dir x w)
     /\ exists c, k = pk ++ [c].
Proof.
  unfold entry_slot. destruct (rev (parts p)) as [|c rinit] eqn:Hrev; [done|].
  apply rev_cons_parts in Hrev. rewrite Hrev, walk_app.
  destruct (walk _ _ (rev rinit)) as [|pk]; [done|]. simpl.
  destruct (dir_step (fs_tree fs) pk c) as [|k0] eqn:Hs; [done|].
  destruct (String.eqb c "..") eqn:Hdd; [done|].
  destruct (fs_tree fs !! pk) as [[?|x w']|] eqn:Hpk; try done.
  intros [= <- <-]. split; [done|]. exists pk, x. split; [done|].
  unfold dir_step in Hs. rewrite Hpk in Hs.
  destruct (negb x); [done|]. destruct (NAME_MAX <? String.length c); [done|].
  rewrite Hdd in Hs. exists c. congruence.
Qed.

Lemma open_w_inv p fs k fs' :
  open_w p fs = (Ok k, fs') ->
  path_has_nul p = false
  /\ walk (fs_tree fs) (start fs p) (parts p) = inr k
  /\ not_dir (fs_tree fs !! k)
  /\ fs' = mkFS (<[k := File ""]> (fs_tree fs)) (fs_cwd fs).
Proof.
  unfold open_w. destruct (path_has_nul p); [done|].
  destruct (entry_slot fs p) as [e|[k0 w]] eqn:Hslot; [by destruct e|].
  apply entry_slot_inv in Hslot as [Hw _].
  destruct (fs_tree fs !! k0) as [[c|]|] eqn:Hk0; try done.
  - intros [= <- <-]. repeat split; try done. intros x w'. by rewrite Hk0.
  - destruct w; [|done]. intros [= <- <-]. repeat split; try done.
    intros x w'. by rewrite Hk0.
Qed.

(** What [Path.exists()] and [Path.is_dir()] answer, in terms of path
    resolution. *)
Lemma Path_exists_eq p fs :
  Path_exists p fs =
  (if path_has_nul p then Ok false
   else match resolve fs p with
        | inr _ => Ok true
        | inl e => if ignorable_errno e then Ok false else Raise (os_error e p)
        end, fs).
Proof.
  unfold Path_exists, stat, os_stat. run_monad.
  destruct (path_has_nul p); [done|].
  destruct (resolve fs p) as [e|[k n]]; [|done]. by destruct e.
Qed.

Lemma Path_is_dir_eq p fs :
  Path_is_dir p fs =
  (if path_has_nul p then Ok false
   else match resolve fs p with
        | inr (_, n) => Ok (S_ISDIR n)
        | inl e => if ignorable_errno e then Ok false else Raise (os_error e p)
        end, fs).
Proof.
  unfold Path_is_dir, stat, os_stat. run_monad.
  destruct (path_has_nul p); [done|].
  destruct (resolve fs p) as [e|[k n]]; [|done]. by destruct e.
Qed.

(** ** The store and the loader, step by step *)

Section TemplateStoreFacts.

Context {Data : Type}.
Variable yaml_dump : Data -> string * option exc.
Variable yaml_safe_load : string -> Res PyValue.

(** [store_template] as the ladder of its three effects; every exception
    ends in one error record and the result [False]. *)
Lemma store_template_unfold d n dir w :
  store_template yaml_dump d n dir w =
  match Path_mkdir (Path dir) true true (w_fs w) with
  | (Raise e, fs1) => (Ok false, logged ERROR (store_error_message n e) fs1 w)
  | (Ok _, fs1) =>
      match open_w (template_file n dir) fs1 with
      | (Raise e, fs2) => (Ok false, logged ERROR (store_error_message n e) fs2 w)
      | (Ok k, fs2) =>
          let fs3 := write k (yaml_dump d).1 fs2 in
          match (yaml_dump d).2 with
          | Some e => (Ok false, logged ERROR (store_error_message n e) fs3 w)
          | None => (Ok true, logged INFO (stored_message n dir) fs3 w)
          end
      end
  end.
Proof.
  unfold store_template, stored_message, template_file, yaml_dump_to, logged,
    store_error_message.
  run_monad.
  destruct (Path_mkdir _ _ _ _) as [[[]|e] fs1]; simpl.
  - destruct (open_w _ fs1) as [[k|e] fs2]; simpl.
    + destruct (yaml_dump d).2 as [e|]; simpl; [|done].
      by destruct (is_IOError e), (is_YAMLError e).
    + by destruct (is_IOError e), (is_YAMLError e).
  - by destruct (is_IOError e), (is_YAMLError e).
Qed.

(** [load_template]: the existence check runs before the [try] statement,
    so an exception of the check leaves the function. *)
Lemma load_template_unfold n dir w :
  load_template yaml_safe_load n dir w =
  let p := template_file n dir in
  match Path_exists p (w_fs w) with
  | (Raise e, fs1) => (Raise e, mkWorld fs1 (w_log w))
  | (Ok false, fs1) => (Ok PyNone, logged WARNING (not_found_message n dir) fs1 w)
  | (Ok true, fs1) =>
      match open_r p fs1 with
      | Raise e => (Ok PyNone, logged ERROR (load_error_message n e) fs1 w)
      | Ok c =>
          match yaml_safe_load c with
          | Raise e => (Ok PyNone, logged ERROR (load_error_message n e) fs1 w)
          | Ok v => (Ok v, logged INFO (loaded_message n dir) fs1 w)
          end
      end
  end.
Proof.
  unfold load_template, loaded_message, not_found_message, template_file,
    yaml_safe_load_from, logged, load_error_message.
  run_monad.
  destruct (Path_exists _ _) as [[[]|e] fs1]; simpl; [|done|done].
  destruct (open_r _ fs1) as [c|e]; simpl.
  - destruct (yaml_safe_load c) as [v|e]; simpl; [done|].
    by destruct (is_IOError e), (is_YAMLError e).
  - by destruct (is_IOError e), (is_YAMLError e).
Qed.

(** Loading when the file is there: the outcome is decided by the codec. *)
Lemma load_template_present n dir w c :
  file_present (w_fs w) (template_file n dir) c ->
  load_template yaml_safe_load n dir w =
  match yaml_safe_load c with
  | Raise e => (Ok PyNone, logged ERROR (load_error_message n e) (w_fs w) w)
  | Ok v => (Ok v, logged INFO (loaded_message n dir) (w_fs w) w)
  end.
Proof.
  intros [Hnul [k Hres]]. rewrite load_template_unfold. simpl.
  rewrite Path_exists_eq, Hnul, Hres. unfold open_r. by rewrite Hnul, Hres.
Qed.

Lemma load_template_absent n dir w :
  file_absent (w_fs w) (template_file n dir) ->
  load_template yaml_safe_load n dir w =
  (Ok PyNone, logged WARNING (not_found_message n dir) (w_fs w) w).
Proof.
  intros Habs. rewrite load_template_unfold. simpl. rewrite Path_exists_eq.
  destruct (path_has_nul _); [done|]. by destruct Habs as [-> | ->].
Qed.

(** After [open(p, 'w')] and the write of [s], the file at [p] holds [s]. *)
Lemma written_file_present p fs k fs' s :
  open_w p fs = (Ok k, fs') -> file_present (write k s fs') p s.
Proof.
  intros (Hnul & Hwalk & Hk & ->)%open_w_inv. split; [done|]. exists k.
  unfold write, resolve, start. simpl. rewrite lookup_insert_eq. simpl.
  rewrite insert_insert_eq.
  rewrite (walk_insert _ _ _ _ _ _ Hwalk Hk). by rewrite lookup_insert_eq.
Qed.


End TemplateStoreFacts.

(** ** Round trip *)


(** ** [Path.mkdir(parents=True, exist_ok=True)] *)

Lemma entry_slot_walk_error fs p e :
  walk (fs_tree fs) (start fs p) (parts p) = inl e ->
  parts p <> [] ->
  entry_slot fs p = inl e.
Proof.
  unfold entry_slot. intros Hw Hne.
  destruct (rev (parts p)) as [|c rinit] eqn:Hrev.
  - destruct (parts p) as [|a l]; [congruence|]. simpl in Hrev.
    destruct (rev l); simpl in Hrev; discriminate.
  - apply rev_cons_parts in Hrev. rewrite Hrev, walk_app in Hw.
    destruct (walk _ _ (rev rinit)) as [|pk]; simpl in Hw;
      [by injection Hw as ->|].
    destruct (dir_step (fs_tree fs) pk c); [by injection Hw as ->|done].
Qed.

(** [os.mkdir] on a path that resolves to a node fails with [EEXIST]. *)
Lemma os_mkdir_existing p fs k n :
  path_has_nul p = false -> resolve fs p = inr (k, n) ->
  os_mkdir p fs = (Raise (os_error EEXIST p), fs).
Proof.
  unfold os_mkdir, resolve, entry_slot. intros -> Hres.
  destruct (walk _ _ (parts p)) as [|k0] eqn:Hw; [done|].
  destruct (fs_tree fs !! k0) as [n0|] eqn:Hk0; [|done].
  injection Hres as -> ->.
  destruct (rev (parts p)) as [|c rinit] eqn:Hrev; [done|].
  apply rev_cons_parts in Hrev. rewrite Hrev, walk_app in Hw.
  destruct (walk _ _ (rev rinit)) as [|pk]; [done|]. simpl in Hw.
  destruct (dir_step (fs_tree fs) pk c) as [|k1] eqn:Hs; [done|].
  injection Hw as ->.
  destruct (String.eqb c ".."); [done|].
  unfold dir_step in Hs.
  destruct (fs_tree fs !! pk) as [[?|x w]|]; try done. by rewrite Hk0.
Qed.

Lemma os_mkdir_ok p fs fs' :
  os_mkdir p fs = (Ok tt, fs') ->
  path_has_nul p = false
  /\ exists k, walk (fs_tree fs) (start fs p) (parts p) = inr k
     /\ fs_tree fs !! k = None
     /\ fs' = mkFS (<[k := Dir true true]> (fs_tree fs)) (fs_cwd fs).
Proof.
  unfold os_mkdir. destruct (path_has_nul p); [done|].
  destruct (entry_slot fs p) as [e|[k w]] eqn:Hslot; [done|].
  apply entry_slot_inv in Hslot as [Hw _].
  destruct (fs_tree fs !! k) eqn:Hk; [done|]. destruct w; [|done].
  intros [= <-]. split; [done|]. by exists k.
Qed.

Lemma os_mkdir_makes_directory p fs fs' :
  os_mkdir p fs = (Ok tt, fs') -> is_directory fs' p.
Proof.
  intros (Hnul & k & Hw & Hk & ->)%os_mkdir_ok. split; [done|].
  exists k, true, true. unfold resolve, start. simpl.
  rewrite (walk_insert _ _ _ _ _ _ Hw); [by rewrite lookup_insert_eq|].
  intros x w. by rewrite Hk.
Qed.

Lemma Path_is_dir_true p fs fs' :
  Path_is_dir p fs = (Ok true, fs') -> fs' = fs /\ is_directory fs p.
Proof.
  rewrite Path_is_dir_eq. unfold is_directory.
  destruct (path_has_nul p); [done|].
  destruct (resolve fs p) as [e|[k [c|x w]]]; simpl.
  - destruct (ignorable_errno e); done.
  - done.
  - intros [= <-]. eauto 10.
Qed.

Lemma is_directory_Path_is_dir p fs :
  is_directory fs p -> Path_is_dir p fs = (Ok true, fs).
Proof.
  intros [Hnul (k & x & w & Hres)]. by rewrite Path_is_dir_eq, Hnul, Hres.
Qed.

Lemma mkdir_exists_clause_ok p exist_ok e fs fs' :
  (mkdir_exists_clause p exist_ok).2 e fs = (Ok tt, fs') ->
  fs' = fs /\ is_directory fs p.
Proof.
  unfold mkdir_exists_clause. simpl. destruct exist_ok; simpl; [|done].
  run_monad. destruct (Path_is_dir p fs) as [[[]|?] fs1] eqn:Hd; simpl; try done.
  intros [= <-]. by apply Path_is_dir_true in Hd as [-> ?].
Qed.

Lemma mkdir_once_ok p exist_ok fs fs' :
  mkdir_once p exist_ok fs = (Ok tt, fs') -> is_directory fs' p.
Proof.
  unfold mkdir_once, try_except.
  destruct (os_mkdir p fs) as [[[]|e] fs1] eqn:Hmk.
  - intros [= <-]. by eapply os_mkdir_makes_directory.
  - assert (fs1 = fs) as ->.
    { unfold os_mkdir in Hmk. destruct (path_has_nul p); [congruence|].
      destruct (entry_slot fs p) as [?|[k w]]; [congruence|].
      destruct (fs_tree fs !! k); [congruence|]. destruct w; congruence. }
    simpl. destruct (is_FileNotFoundError e); [done|].
    destruct (is_IOError e) eqn:Hio; [|done].
    intros H. change (is_IOError e) with ((mkdir_exists_clause p exist_ok).1 e) in Hio.
    by apply mkdir_exists_clause_ok in H as [-> ?].
Qed.

Lemma os_mkdir_error_fs p fs e fs' :
  os_mkdir p fs = (Raise e, fs') -> fs' = fs.
Proof.
  unfold os_mkdir. destruct (path_has_nul p); [congruence|].
  destruct (entry_slot fs p) as [?|[k w]]; [congruence|].
  destruct (fs_tree fs !! k); [congruence|]. destruct w; congruence.
Qed.

(** Post-condition of [mkdir]: when it returns, the path is a directory. *)
Lemma mkdir_rev_ok abs rp parents exist_ok fs fs' :
  mkdir_rev abs rp parents exist_ok fs = (Ok tt, fs') ->
  is_directory fs' (mkPath abs (rev rp)).
Proof.
  destruct rp as [|c rp]; simpl; unfold try_except;
    match goal with |- context [os_mkdir ?p fs] =>
      destruct (os_mkdir p fs) as [[[]|e] fs1] eqn:Hmk end;
    try (intros [= <-]; by eapply os_mkdir_makes_directory);
    apply os_mkdir_error_fs in Hmk as ->; simpl.
  - destruct (is_FileNotFoundError e); [done|].
    destruct (is_IOError e); [|done].
    intros H. by apply mkdir_exists_clause_ok in H as [-> ?].
  - destruct (is_FileNotFoundError e).
    + destruct parents; simpl; [|done]. unfold bind.
      destruct (mkdir_rev abs rp true true fs) as [[[]|?] fs2]; [|done].
      apply mkdir_once_ok.
    + destruct (is_IOError e); [|done].
      intros H. by apply mkdir_exists_clause_ok in H as [-> ?].
Qed.

(** [mkdir(exist_ok=True)] on a directory that is there changes nothing. *)
Lemma mkdir_rev_existing abs rp parents fs :
  is_directory fs (mkPath abs (rev rp)) ->
  mkdir_rev abs rp parents true fs = (Ok tt, fs).
Proof.
  intros Hdir. pose proof Hdir as [Hnul (k & x & w & Hres)].
  assert (os_mkdir (mkPath abs (rev rp)) fs
          = (Raise (os_error EEXIST (mkPath abs (rev rp))), fs)) as Hmk
    by (by eapply os_mkdir_existing).
  destruct rp as [|c rp]; simpl in *; unfold try_except; rewrite Hmk; simpl;
    run_monad; by rewrite (is_directory_Path_is_dir _ _ Hdir).
Qed.

Lemma Path_mkdir_ok p parents exist_ok fs fs' :
  Path_mkdir p parents exist_ok fs = (Ok tt, fs') -> is_directory fs' p.
Proof.
  unfold Path_mkdir. intros H%mkdir_rev_ok. rewrite rev_involutive in H.
  by destruct p.
Qed.

Lemma Path_mkdir_existing p parents fs :
  is_directory fs p -> Path_mkdir p parents true fs = (Ok tt, fs).
Proof.
  unfold Path_mkdir. intros H. apply mkdir_rev_existing.
  rewrite rev_involutive. by destruct p.
Qed.

(** ** Overwriting *)

Lemma is_directory_insert t cwd p k n :
  is_directory (mkFS t cwd) p -> not_dir (t !! k) ->
  is_directory (mkFS (<[k := n]> t) cwd) p.
Proof.
  intros [Hnul (kd & x & w & Hres)] Hk. split; [done|]. exists kd, x, w.
  unfold resolve, start in *. simpl in *.
  destruct (walk t _ (parts p)) as [|k0] eqn:Hw; [done|].
  destruct (t !! k0) as [n0|] eqn:Hk0; [|done]. injection Hres as -> ->.
  rewrite (walk_insert _ _ _ _ _ _ Hw Hk).
  rewrite lookup_insert_ne; [by rewrite Hk0|].
  intros ->. by apply (Hk x w).
Qed.

Lemma entry_slot_insert t cwd p k n k' w :
  entry_slot (mkFS t cwd) p = inr (k', w) -> not_dir (t !! k) ->
  entry_slot (mkFS (<[k := n]> t) cwd) p = inr (k', w).
Proof.
  unfold entry_slot, start. simpl. intros Hslot Hk.
  destruct (rev (parts p)) as [|c rinit]; [done|].
  destruct (walk t _ (rev rinit)) as [|pk] eqn:Hw; [done|].
  rewrite (walk_insert _ _ _ _ _ _ Hw Hk).
  destruct (dir_step t pk c) as [|k0] eqn:Hs; [done|].
  rewrite (dir_step_insert _ _ _ _ _ _ Hs Hk).
  destruct (String.eqb c ".."); [done|].
  destruct (t !! pk) as [[?|x w']|] eqn:Hpk; try done.
  rewrite lookup_insert_ne; [by rewrite Hpk|].
  intros ->. by apply (Hk x w').
Qed.

(** Opening for writing again a file that was just written truncates it. *)
Lemma open_w_again p fs k fs' s :
  open_w p fs = (Ok k, fs') ->
  open_w p (write k s fs')
  = (Ok k, mkFS (<[k := File ""]> (fs_tree fs)) (fs_cwd fs)).
Proof.
  intros Hopen. pose proof Hopen as (Hnul & Hwalk & Hk & ->)%open_w_inv.
  unfold open_w in *. rewrite Hnul in *.
  destruct (entry_slot fs p) as [e|[k0 w]] eqn:Hslot; [by destruct e|].
  assert (k0 = k) as ->.
  { apply entry_slot_inv in Hslot as [Hw' _]. congruence. }
  unfold write. simpl. rewrite lookup_insert_eq. simpl. rewrite insert_insert_eq.
  destruct fs as [t cwd]. simpl in *.
  rewrite (entry_slot_insert _ _ _ _ _ _ _ Hslot Hk). simpl.
  by rewrite lookup_insert_eq, insert_insert_eq.
Qed.

Section Overwrite.

Context {Data : Type}.
Variable yaml_dump : Data -> string * option exc.

Lemma store_template_true_steps d n dir w w' :
  store_template yaml_dump d n dir w = (Ok true, w') ->
  exists fs1 k fs2,
    Path_mkdir (Path dir) true true (w_fs w) = (Ok tt, fs1)
    /\ open_w (template_file n dir) fs1 = (Ok k, fs2)
    /\ (yaml_dump d).2 = None
    /\ w' = logged INFO (stored_message n dir) (write k (yaml_dump d).1 fs2) w.
Proof.
  rewrite store_template_unfold.
  destruct (Path_mkdir _ _ _ _) as [[[]|e] fs1]; [|done].
  destruct (open_w _ fs1) as [[k|e] fs2] eqn:Hopen; [|done]. simpl.
  destruct (yaml_dump d).2 eqn:Hd; [done|]. intros [= <-]. eauto 10.
Qed.

(** After a successful store, a second store under the same name succeeds
    whenever its value can be dumped, and leaves exactly the second text. *)
Lemma store_template_again d1 d2 n dir w w1 :
  store_template yaml_dump d1 n dir w = (Ok true, w1) ->
  (yaml_dump d2).2 = None ->
  exists w2,
    store_template yaml_dump d2 n dir w1 = (Ok true, w2)
    /\ file_present (w_fs w2) (template_file n dir) (yaml_dump d2).1.
Proof.
  intros (fs1 & k & fs2 & Hmk & Hopen & _ & ->)%store_template_true_steps Hd2.
  pose proof Hmk as Hdir%Path_mkdir_ok.
  pose proof Hopen as (Hnul & Hwalk & Hk & ->)%open_w_inv.
  pose proof (open_w_again _ _ _ _ (yaml_dump d1).1 Hopen) as Hagain.
  set (fs3 := write k (yaml_dump d1).1 _) in *.
  assert (is_directory fs3 (Path dir)) as Hdir3.
  { unfold fs3, write. simpl. rewrite lookup_insert_eq. simpl.
    rewrite insert_insert_eq. destruct fs1 as [t cwd]. by apply is_directory_insert. }
  rewrite store_template_unfold. simpl.
  rewrite (Path_mkdir_existing _ _ _ Hdir3), Hagain, Hd2. simpl.
  eexists. split; [done|]. simpl.
  eapply written_file_present. unfold open_w. rewrite Hnul.
  unfold open_w in Hagain. rewrite Hnul in Hagain. exact Hagain.
Qed.

End Overwrite.

(** C6.  Last write wins: after [store_template(d1, n)] has succeeded,
    [store_template(d2, n)] for a serializable [d2] succeeds as well, the
    file then holds exactly the text of [d2], and [load_template(n)] returns
    a value deep-equal to [d2]. *)
Theorem last_write_wins
    (yaml_dump : PyValue -> string * option exc)
    (yaml_safe_load : string -> Res PyValue)
    (d1 d2 : PyValue) (n dir : string) (w w1 : World) :
  store_template yaml_dump d1 n dir w = (Ok true, w1) ->
  round_trips yaml_dump yaml_safe_load d2 ->
  exists w2 d' w3,
    store_template yaml_dump d2 n dir w1 = (Ok true, w2)
    /\ file_present (w_fs w2) (template_file n dir) (yaml_dump d2).1
    /\ load_template yaml_safe_load n dir w2 = (Ok d', w3)
    /\ deep_eq d' d2 = true.
Proof.
  intros Hfirst [Hd2 (d' & Hload & Heq)].
  destruct (store_template_again yaml_dump d1 d2 n dir w w1 Hfirst Hd2)
    as (w2 & Hsecond & Hfile).
  exists w2, d'. eexists. split; [done|]. split; [done|]. split; [|done].
  by rewrite (load_template_present _ _ _ _ _ Hfile), Hload.
Qed.

(** ** Loading: missing, malformed and empty templates *)

(** When path resolution answers that nothing is at
    [{directory}/{name}.yaml] ([ENOENT] or [ENOTDIR]), [load_template]
    returns [None] without raising; it does so at once: the file system is
    left as it was and the only effect is one warning record.  A missing
    file whose lookup is refused is another matter: see
    [load_missing_name_too_long_raises]. *)
Lemma load_missing_returns_none
    (yaml_safe_load : string -> Res PyValue) (n dir : string) (w : World) :
  file_absent (w_fs w) (template_file n dir) ->
  load_template yaml_safe_load n dir w
  = (Ok PyNone, logged WARNING (not_found_message n dir) (w_fs w) w).
Proof. apply load_template_absent. Qed.

Lemma load_missing_returns_none_witness :
  load_template FlatYaml.safe_load "missing" "t" Demo.home
  = (Ok PyNone,
     logged WARNING (not_found_message "missing" "t") (w_fs Demo.home) Demo.home).
Proof.
  apply (load_missing_returns_none FlatYaml.safe_load "missing" "t" Demo.home).
  left. vm_compute. reflexivity.
Defined.

Lemma YAMLError_message n e :
  is_YAMLError e = true ->
  load_error_message n e
  = "YAML error while loading template '" +:+ n +:+ "': " +:+ exc_msg e.
Proof.
  unfold load_error_message, is_YAMLError, is_IOError.
  by destruct (exc_cls e).
Qed.

(** C5.  When the file is there and its contents are not a well-formed
    document (the parser raises a [yaml.YAMLError]), [load_template]
    returns [None], raises nothing and logs one error record. *)
Theorem load_malformed_returns_none
    (yaml_safe_load : string -> Res PyValue) (n dir : string) (w : World)
    (c : string) (e : exc) :
  file_present (w_fs w) (template_file n dir) c ->
  yaml_safe_load c = Raise e ->
  is_YAMLError e = true ->
  load_template yaml_safe_load n dir w
  = (Ok PyNone,
     logged ERROR ("YAML error while loading template '" +:+ n +:+ "': "
                   +:+ exc_msg e) (w_fs w) w).
Proof.
  intros Hfile Hload He.
  by rewrite (load_template_present _ _ _ _ _ Hfile), Hload, YAMLError_message.
Qed.

Lemma load_malformed_returns_none_witness :
  load_template FlatYaml.safe_load "invalid_yaml_template" "t"
    (mkWorld Demo.t_fs [])
  = (Ok PyNone,
     logged ERROR ("YAML error while loading template 'invalid_yaml_template': "
                   +:+ exc_msg FlatYaml.scanner_error)
       Demo.t_fs (mkWorld Demo.t_fs [])).
Proof.
  apply (load_malformed_returns_none FlatYaml.safe_load "invalid_yaml_template"
           "t" (mkWorld Demo.t_fs []) Demo.invalid_text FlatYaml.scanner_error).
  - split; [reflexivity|]. eexists. vm_compute. reflexivity.
  - vm_compute. reflexivity.
  - reflexivity.
Defined.

(** C10.  When the file is there and its contents denote the null document
    (as the empty text does), [load_template] logs success and returns
    [None]: the same value it returns for a missing file.  More generally
    whatever value the document denotes is returned as it is. *)
Theorem load_empty_is_absent
    (yaml_safe_load : string -> Res PyValue) (n dir : string)
    (w w_missing : World) (c : string) :
  file_present (w_fs w) (template_file n dir) c ->
  yaml_safe_load c = Ok PyNone ->
  file_absent (w_fs w_missing) (template_file n dir) ->
  load_template yaml_safe_load n dir w
  = (Ok PyNone, logged INFO (loaded_message n dir) (w_fs w) w)
  /\ (load_template yaml_safe_load n dir w).1
     = (load_template yaml_safe_load n dir w_missing).1
  /\ forall w' c' v,
       file_present (w_fs w') (template_file n dir) c' ->
       yaml_safe_load c' = Ok v ->
       load_template yaml_safe_load n dir w'
       = (Ok v, logged INFO (loaded_message n dir) (w_fs w') w').
Proof.
  intros Hfile Hload Habs. split; [|split].
  - by rewrite (load_template_present _ _ _ _ _ Hfile), Hload.
  - rewrite (load_template_present _ _ _ _ _ Hfile), Hload.
    by rewrite (load_template_absent _ _ _ _ Habs).
  - intros w' c' v Hfile' Hload'.
    by rewrite (load_template_present _ _ _ _ _ Hfile'), Hload'.
Qed.

Lemma load_empty_is_absent_witness :
  load_template FlatYaml.safe_load "empty" "t" (mkWorld Demo.t_fs [])
  = (Ok PyNone,
     logged INFO (loaded_message "empty" "t") Demo.t_fs (mkWorld Demo.t_fs []))
  /\ (load_template FlatYaml.safe_load "empty" "t" (mkWorld Demo.t_fs [])).1
     = (load_template FlatYaml.safe_load "empty" "t" Demo.home).1.
Proof.
  destruct (load_empty_is_absent FlatYaml.safe_load "empty" "t"
              (mkWorld Demo.t_fs []) Demo.home "") as (H1 & H2 & _).
  - split; [reflexivity|]. eexists. vm_compute. reflexivity.
  - vm_compute. reflexivity.
  - left. vm_compute. reflexivity.
  - split; [exact H1 | exact H2].
Defined.

(** ** Totality *)

Section Totality.

Context {Data : Type}.
Variable yaml_dump : Data -> string * option exc.
Variable yaml_safe_load : string -> Res PyValue.

(** [store_template] returns a boolean for every input: its whole body is
    inside the [try] statement, whose last clause catches everything. *)
Lemma store_template_total d n dir w :
  exists b w', store_template yaml_dump d n dir w = (Ok b, w').
Proof.
  rewrite store_template_unfold.
  destruct (Path_mkdir _ _ _ _) as [[[]|e] fs1]; [|eauto].
  destruct (open_w _ fs1) as [[k|e] fs2]; [|eauto]. simpl.
  destruct (yaml_dump d).2; eauto.
Qed.

(** [load_template] returns whenever the existence check answers... *)
Lemma load_template_total_after_check n dir w b fs :
  Path_exists (template_file n dir) (w_fs w) = (Ok b, fs) ->
  exists v w', load_template yaml_safe_load n dir w = (Ok v, w').
Proof.
  intros Hex. rewrite load_template_unfold. simpl. rewrite Hex.
  destruct b; [|eauto].
  destruct (open_r _ fs); [|eauto]. destruct (yaml_safe_load _); eauto.
Qed.

(** ... and raises what the check raises: the check is made before the
    [try] statement is entered. *)
Lemma load_template_check_propagates n dir w e fs :
  Path_exists (template_file n dir) (w_fs w) = (Raise e, fs) ->
  load_template yaml_safe_load n dir w = (Raise e, mkWorld fs (w_log w)).
Proof. intros Hex. rewrite load_template_unfold. simpl. by rewrite Hex. Qed.

End Totality.

(** C9.  [load_template] is not total: with the greeting template stored
    in a directory that the process may not search, the existence check
    [file_path.exists()] raises [PermissionError] ([pathlib] re-raises every
    [OSError] other than "not there"), and since the check stands before
    the [try] statement the exception reaches the caller. *)
Theorem load_template_raises_permission_error
    (yaml_safe_load : string -> Res PyValue) :
  load_template yaml_safe_load "greeting" "vault" (mkWorld Demo.vault_fs [])
  = (Raise (Exc (OSError EACCES)
                "[Errno 13] Permission denied: 'vault/greeting.yaml'"),
     mkWorld Demo.vault_fs []).
Proof.
  rewrite load_template_unfold. simpl. rewrite Path_exists_eq.
  vm_compute. reflexivity.
Qed.

(** ** The concrete scenario of the specification *)

Lemma greeting_round_trips :
  round_trips FlatYaml.dump FlatYaml.safe_load Demo.greeting.
Proof.
  split; [reflexivity|]. eexists. split; vm_compute; reflexivity.
Qed.


Lemma last_write_wins_witness :
  exists w2 d' w3,
    store_template FlatYaml.dump Demo.greeting "greeting" "t"
      (store_template FlatYaml.dump Demo.summary "greeting" "t" Demo.home).2
    = (Ok true, w2)
    /\ file_present (w_fs w2) (template_file "greeting" "t")
         (FlatYaml.dump Demo.greeting).1
    /\ load_template FlatYaml.safe_load "greeting" "t" w2 = (Ok d', w3)
    /\ deep_eq d' Demo.greeting = true.
Proof.
  apply (last_write_wins FlatYaml.dump FlatYaml.safe_load Demo.summary
           Demo.greeting "greeting" "t" Demo.home).
  - vm_compute. reflexivity.
  - split; [reflexivity|]. eexists. split; vm_compute; reflexivity.
Defined.

(** ** Creation of the template directory *)

Lemma path_has_nul_app abs a b :
  path_has_nul (mkPath abs (a ++ b)) = false ->
  path_has_nul (mkPath abs a) = false /\ path_has_nul (mkPath abs b) = false.
Proof.
  unfold path_has_nul. simpl. rewrite existsb_app.
  by destruct (existsb has_nul a), (existsb has_nul b).
Qed.

Lemma dir_step_valid t cur c :
  t !! cur = Some (Dir true true) -> valid_component c ->
  dir_step t cur c = inr (cur ++ [c]).
Proof.
  intros Hcur [Hdd Hlen]. unfold dir_step. rewrite Hcur. simpl.
  destruct (Nat.ltb_spec NAME_MAX (String.length c)); [lia|].
  destruct (String.eqb_spec c ".."); done.
Qed.

Lemma walk_missing t k cs :
  t !! k = None -> cs <> [] -> walk t k cs = inl ENOENT.
Proof.
  intros Hk Hne. destruct cs as [|c cs]; [done|]. simpl.
  unfold dir_step. by rewrite Hk.
Qed.

(** [os.mkdir] of a new entry in a searchable, writable directory. *)
Lemma os_mkdir_fresh abs t cwd pre kb c :
  path_has_nul (mkPath abs (pre ++ [c])) = false ->
  walk t (if abs then [] else cwd) pre = inr kb ->
  t !! kb = Some (Dir true true) ->
  valid_component c ->
  t !! (kb ++ [c]) = None ->
  os_mkdir (mkPath abs (pre ++ [c])) (mkFS t cwd)
  = (Ok tt, mkFS (<[kb ++ [c] := Dir true true]> t) cwd).
Proof.
  intros Hnul Hw Hkb Hc Hk. unfold os_mkdir, entry_slot, start. rewrite Hnul.
  simpl. rewrite rev_app_distr. simpl. rewrite rev_involutive, Hw.
  rewrite (dir_step_valid _ _ _ Hkb Hc).
  destruct Hc as [Hdd _]. destruct (String.eqb_spec c ".."); [done|].
  by rewrite Hkb, Hk.
Qed.

Lemma prefix_app_longer {A} (l : list A) (x : A) : ~ ((l ++ [x]) `prefix_of` l).
Proof.
  intros H%prefix_length. rewrite length_app in H. simpl in H. lia.
Qed.

Lemma mkdir_rev_cons abs c rp parents exist_ok :
  mkdir_rev abs (c :: rp) parents exist_ok
  = try_except
      (os_mkdir (mkPath abs (rev rp ++ [c])))
      [ (is_FileNotFoundError,
         fun e =>
           if negb parents then raise e
           else bind (mkdir_rev abs rp true true)
                     (fun _ => mkdir_once (mkPath abs (rev rp ++ [c])) exist_ok));
        mkdir_exists_clause (mkPath abs (rev rp ++ [c])) exist_ok ].
Proof. reflexivity. Qed.

Lemma rev_app_rev {A} (rs pre : list A) : rev (rs ++ rev pre) = pre ++ rev rs.
Proof. by rewrite rev_app_distr, rev_involutive. Qed.

(** The last step of the creation, in a tree where the parent is there. *)
Lemma os_mkdir_last (abs : bool) (t t1 : gmap (list string) node)
    (cwd pre base mid : list string) (c : string) :
  path_has_nul (mkPath abs ((pre ++ mid) ++ [c])) = false ->
  valid_component c ->
  walk t1 (if abs then [] else cwd) (pre ++ mid) = inr (base ++ mid) ->
  t1 !! (base ++ mid) = Some (Dir true true) ->
  t1 !! ((base ++ mid) ++ [c]) = None ->
  (forall k, ~ (k `prefix_of` (base ++ mid)) -> t1 !! k = t !! k) ->
  let t' := <[(base ++ mid) ++ [c] := Dir true true]> t1 in
  os_mkdir (mkPath abs ((pre ++ mid) ++ [c])) (mkFS t1 cwd) = (Ok tt, mkFS t' cwd)
  /\ walk t' (if abs then [] else cwd) ((pre ++ mid) ++ [c])
     = inr ((base ++ mid) ++ [c])
  /\ t' !! ((base ++ mid) ++ [c]) = Some (Dir true true)
  /\ (forall k, ~ (k `prefix_of` ((base ++ mid) ++ [c])) -> t' !! k = t !! k).
Proof.
  intros Hnul Hc Hw Hkb Hk Hframe t'. subst t'. split; [|split; [|split]].
  - by apply os_mkdir_fresh.
  - rewrite walk_app.
    rewrite (walk_insert _ _ _ _ _ _ Hw); [|intros x w; by rewrite Hk].
    simpl. unfold dir_step. rewrite lookup_insert_ne.
    2:{ intros Heq. apply (f_equal length) in Heq.
        rewrite length_app in Heq. simpl in Heq. lia. }
    rewrite Hkb. simpl. destruct Hc as [Hdd Hlen].
    destruct (Nat.ltb_spec NAME_MAX (String.length c)); [lia|].
    by destruct (String.eqb_spec c "..").
  - by rewrite lookup_insert_eq.
  - intros k Hnp. rewrite lookup_insert_ne.
    2:{ intros <-. by apply Hnp. }
    apply Hframe. intros Hp. apply Hnp.
    etrans; [exact Hp|]. by apply prefix_app_r.
Qed.

(** [mkdir(parents=True, exist_ok=True)] creates the missing components one
    after the other, and touches no other key. *)
Lemma mkdir_rev_fresh (abs : bool) (t : gmap (list string) node)
    (cwd pre base : list string) (first : string) :
  walk t (if abs then [] else cwd) pre = inr base ->
  t !! base = Some (Dir true true) ->
  (forall k, (base ++ [first]) `prefix_of` k -> t !! k = None) ->
  forall rs c rest,
    rev rs ++ [c] = first :: rest ->
    path_has_nul (mkPath abs ((pre ++ rev rs) ++ [c])) = false ->
    Forall valid_component (rev rs ++ [c]) ->
    exists t',
      mkdir_rev abs (c :: rs ++ rev pre) true true (mkFS t cwd)
      = (Ok tt, mkFS t' cwd)
      /\ walk t' (if abs then [] else cwd) ((pre ++ rev rs) ++ [c])
         = inr ((base ++ rev rs) ++ [c])
      /\ t' !! ((base ++ rev rs) ++ [c]) = Some (Dir true true)
      /\ (forall k, ~ (k `prefix_of` ((base ++ rev rs) ++ [c])) -> t' !! k = t !! k).
Proof.
  intros Hpre Hbase Hempty.
  induction rs as [|c' rs IH]; intros c rest Hsuf Hnul Hvalid.
  - simpl in Hsuf, Hvalid, Hnul. injection Hsuf as -> <-.
    rewrite Forall_singleton in Hvalid. rewrite app_nil_r in Hnul.
    destruct (os_mkdir_last abs t t cwd pre base [] first)
      as (Hmk & Hw & Hk & Hframe); rewrite ?app_nil_r; try done.
    { apply Hempty. done. }
    rewrite ?app_nil_r in *.
    exists (<[base ++ [first] := Dir true true]> t).
    rewrite mkdir_rev_cons, rev_app_rev. simpl rev. rewrite app_nil_r.
    unfold try_except. by rewrite Hmk.
  - change (rev (c' :: rs)) with (rev rs ++ [c']) in *.
    apply Forall_app in Hvalid as [Hvalid Hc]. rewrite Forall_singleton in Hc.
    assert (exists rest', rev rs ++ [c'] = first :: rest') as [rest' Hsuf'].
    { destruct (rev rs ++ [c']) as [|a l] eqn:Heq.
      - by destruct (rev rs).
      - injection Hsuf as -> _. eauto. }
    assert (path_has_nul (mkPath abs ((pre ++ rev rs) ++ [c'])) = false) as Hnul'.
    { apply path_has_nul_app in Hnul as [Hnul _]. by rewrite (assoc_L (++)) in Hnul. }
    destruct (IH c' rest' Hsuf' Hnul' Hvalid) as (t1 & Hmk1 & Hw1 & Hk1 & Hframe1).
    rewrite <- !(assoc_L (++)) in Hw1. rewrite <- !(assoc_L (++)) in Hk1.
    setoid_rewrite <- (assoc_L (++)) in Hframe1.
    destruct (os_mkdir_last abs t t1 cwd pre base (rev rs ++ [c']) c)
      as (Hmk & Hw & Hk & Hframe); try done.
    { rewrite Hframe1.
      - apply Hempty. rewrite Hsuf'.
        exists (rest' ++ [c]). by rewrite <- !(assoc_L (++)).
      - apply prefix_app_longer. }
    eexists. split; [|done].
    rewrite mkdir_rev_cons.
    change (c' :: rs ++ rev pre) with ((c' :: rs) ++ rev pre).
    rewrite rev_app_rev. change (rev (c' :: rs)) with (rev rs ++ [c']).
    (* the first attempt fails: the parent is missing *)
    assert (os_mkdir (mkPath abs ((pre ++ rev rs ++ [c']) ++ [c])) (mkFS t cwd)
            = (Raise (os_error ENOENT (mkPath abs ((pre ++ rev rs ++ [c']) ++ [c]))),
               mkFS t cwd)) as Hfail.
    { unfold os_mkdir. rewrite Hnul.
      rewrite entry_slot_walk_error with (e := ENOENT); [done| |].
      - unfold start. simpl. rewrite <- (assoc_L (++) pre), walk_app, Hpre.
        rewrite Hsuf'. simpl.
        rewrite Hsuf' in Hvalid. apply Forall_cons_1 in Hvalid as [Hfirst _].
        rewrite (dir_step_valid _ _ _ Hbase Hfirst).
        apply walk_missing; [by apply Hempty|]. by destruct rest'.
      - simpl. intros [_ ?]%app_nil. done. }
    unfold try_except. rewrite Hfail. cbn -[mkdir_rev mkdir_once os_mkdir].
    unfold bind. rewrite Hmk1. unfold mkdir_once, try_except.
    by rewrite Hmk.
Qed.

(** *** File names *)

Lemma split_char_no_sep sep s :
  has_char sep s = false -> split_char sep s = [s].
Proof.
  induction s as [|c s IH]; simpl; [done|].
  destruct (Ascii.eqb c sep); [done|]. simpl. intros H. by rewrite IH.
Qed.

Lemma has_char_app a s1 s2 :
  has_char a (s1 +:+ s2) = has_char a s1 || has_char a s2.
Proof.
  induction s1 as [|c s1 IH]; simpl; [done|]. rewrite IH. by rewrite orb_assoc.
Qed.

Lemma has_nul_app s1 s2 : has_nul (s1 +:+ s2) = has_nul s1 || has_nul s2.
Proof.
  induction s1 as [|c s1 IH]; simpl; [done|]. rewrite IH. by rewrite orb_assoc.
Qed.

Lemma string_length_app s1 s2 :
  String.length (s1 +:+ s2) = String.length s1 + String.length s2.
Proof. induction s1 as [|c s1 IH]; simpl; [done|]. by rewrite IH. Qed.

Lemma filename_stem_inv n :
  filename_stem n = true ->
  has_char "/" n = false /\ has_nul n = false
  /\ String.length n + 5 <= NAME_MAX.
Proof.
  unfold filename_stem. intros [[H1 H2]%andb_prop H3%Nat.leb_le]%andb_prop.
  by destruct (has_char "/" n), (has_nul n).
Qed.

Lemma yaml_name_neq n s :
  String.length s < 5 -> String.eqb (n +:+ ".yaml") s = false.
Proof.
  intros Hlen. apply String.eqb_neq. intros Heq.
  apply (f_equal String.length) in Heq. rewrite string_length_app in Heq.
  simpl in Heq. lia.
Qed.

(** [Path(f"{name}.yaml")] for a file-name stem: one relative component. *)
Lemma Path_filename n :
  filename_stem n = true -> Path (n +:+ ".yaml") = mkPath false [n +:+ ".yaml"].
Proof.
  intros (Hslash & _ & _)%filename_stem_inv. unfold Path, split_slash. f_equal.
  - destruct n as [|c n]; [done|]. simpl in *. by destruct (Ascii.eqb c "/").
  - rewrite split_char_no_sep; [|by rewrite has_char_app, Hslash].
    rewrite filter_cons_True; [done|].
    unfold kept_part. by rewrite !yaml_name_neq by (simpl; lia).
Qed.

Lemma template_file_stem n dir :
  filename_stem n = true ->
  template_file n dir
  = mkPath (absolute (Path dir)) (parts (Path dir) ++ [n +:+ ".yaml"]).
Proof.
  intros Hn. unfold template_file, joinpath. by rewrite Path_filename.
Qed.

Lemma yaml_name_valid n :
  filename_stem n = true -> valid_component (n +:+ ".yaml").
Proof.
  intros (_ & _ & Hlen)%filename_stem_inv. split.
  - apply String.eqb_neq, yaml_name_neq. simpl. lia.
  - rewrite string_length_app. simpl. lia.
Qed.

(** *** The missing directory *)

Lemma open_w_fresh abs t cwd pre kb c :
  path_has_nul (mkPath abs (pre ++ [c])) = false ->
  walk t (if abs then [] else cwd) pre = inr kb ->
  t !! kb = Some (Dir true true) ->
  valid_component c ->
  t !! (kb ++ [c]) = None ->
  open_w (mkPath abs (pre ++ [c])) (mkFS t cwd)
  = (Ok (kb ++ [c]), mkFS (<[kb ++ [c] := File ""]> t) cwd).
Proof.
  intros Hnul Hw Hkb Hc Hk. unfold open_w, entry_slot, start. rewrite Hnul.
  simpl. rewrite rev_app_distr. simpl. rewrite rev_involutive, Hw.
  rewrite (dir_step_valid _ _ _ Hkb Hc).
  destruct Hc as [Hdd _]. destruct (String.eqb_spec c ".."); [done|].
  by rewrite Hkb, Hk.
Qed.

(** A creatable path does not exist. *)
Lemma creatable_absent fs p : creatable fs p -> resolve fs p = inl ENOENT.
Proof.
  intros (Hnul & pre & first & rest & base & Hparts & Hw & Hbase & Hvalid & Hempty).
  assert (fs_tree fs !! (base ++ [first]) = None) as Hnone.
  { destruct (fs_tree fs !! (base ++ [first])) eqn:Hk; [|done].
    by destruct (Hempty _ _ Hk). }
  apply Forall_cons_1 in Hvalid as [Hfirst _].
  unfold resolve. rewrite Hparts, walk_app, Hw. simpl.
  rewrite (dir_step_valid _ _ _ Hbase Hfirst).
  destruct rest as [|c rest]; simpl; [by rewrite Hnone|].
  unfold dir_step. by rewrite Hnone.
Qed.

(** [mkdir] on a creatable path: the directory is made, searchable and
    writable, and only keys on the way to it change. *)
Lemma Path_mkdir_creatable fs p :
  creatable fs p ->
  exists t' kd,
    Path_mkdir p true true fs = (Ok tt, mkFS t' (fs_cwd fs))
    /\ walk t' (start fs p) (parts p) = inr kd
    /\ t' !! kd = Some (Dir true true)
    /\ (forall c, t' !! (kd ++ [c]) = None).
Proof.
  intros (Hnul & pre & first & rest & base & Hparts & Hw & Hbase & Hvalid & Hempty).
  assert (forall k, (base ++ [first]) `prefix_of` k -> fs_tree fs !! k = None)
    as Hempty'.
  { intros k Hp. destruct (fs_tree fs !! k) eqn:Hk; [|done].
    by destruct (Hempty _ _ Hk). }
  destruct (rev (first :: rest)) as [|c rs] eqn:Hrev.
  { apply (f_equal length) in Hrev. rewrite length_rev in Hrev. done. }
  apply rev_cons_parts in Hrev.
  destruct fs as [t cwd]. destruct p as [abs ps]. simpl in *. subst ps.
  rewrite Hrev in Hvalid, Hnul. rewrite (assoc_L (++)) in Hnul.
  destruct (mkdir_rev_fresh abs t cwd pre base first Hw Hbase Hempty'
              rs c rest (eq_sym Hrev) Hnul Hvalid)
    as (t' & Hmk & Hw' & Hk' & Hframe).
  exists t', ((base ++ rev rs) ++ [c]). unfold Path_mkdir, start. simpl.
  rewrite Hrev, rev_app_distr, rev_app_distr, rev_involutive. simpl.
  rewrite (assoc_L (++)). repeat split; try done.
  intros c0. rewrite Hframe; [|apply prefix_app_longer].
  apply Hempty'. exists (rest ++ [c0]).
  rewrite <- !(assoc_L (++)). f_equal.
  by rewrite (assoc_L (++) (rev rs)), <- Hrev.
Qed.

(** C7.  Directory auto-creation: when the directory [X] does not exist and
    can be created (a leading part of [X] is a directory the process may
    search and write, nothing exists below it on the way to [X]), [n] is a
    file-name stem and [d] can be dumped, [store_template(d, n, X)] returns
    [True]; afterwards [X] is a directory and holds the template file. *)
Theorem store_creates_directory {Data : Type}
    (yaml_dump : Data -> string * option exc) (d : Data) (n dir : string)
    (w : World) :
  creatable (w_fs w) (Path dir) ->
  filename_stem n = true ->
  dumps yaml_dump d ->
  exists w',
    store_template yaml_dump d n dir w = (Ok true, w')
    /\ is_directory (w_fs w') (Path dir)
    /\ file_present (w_fs w') (template_file n dir) (yaml_dump d).1.
Proof.
  intros Hcr Hn Hd. pose proof Hcr as [Hnul _].
  destruct (Path_mkdir_creatable _ _ Hcr) as (t' & kd & Hmk & Hw & Hkd & Hbelow).
  pose proof Hn as (_ & Hnnul & _)%filename_stem_inv.
  assert (open_w (template_file n dir) (mkFS t' (fs_cwd (w_fs w)))
          = (Ok (kd ++ [n +:+ ".yaml"]),
             mkFS (<[kd ++ [n +:+ ".yaml"] := File ""]> t') (fs_cwd (w_fs w))))
    as Hopen.
  { rewrite template_file_stem by done. apply open_w_fresh; try done.
    - unfold path_has_nul in *. cbn [parts]. rewrite existsb_app, Hnul.
      cbn [existsb]. by rewrite has_nul_app, Hnnul.
    - by apply yaml_name_valid. }
  rewrite store_template_unfold, Hmk, Hopen. simpl. rewrite Hd.
  eexists. split; [done|]. simpl. split.
  - unfold write. simpl. rewrite lookup_insert_eq. simpl.
    rewrite insert_insert_eq. apply is_directory_insert.
    + split; [done|]. exists kd, true, true. unfold resolve, start in *.
      cbn [fs_tree fs_cwd]. by rewrite Hw, Hkd.
    + intros x w0. by rewrite Hbelow.
  - by eapply written_file_present.
Qed.

(** ** Loading a missing template whose lookup is refused *)

Lemma Path_yaml_component n :
  has_char "/" n = false -> Path (n +:+ ".yaml") = mkPath false [n +:+ ".yaml"].
Proof.
  intros Hslash. unfold Path, split_slash. f_equal.
  - destruct n as [|c n]; [done|]. simpl in *. by destruct (Ascii.eqb c "/").
  - rewrite split_char_no_sep; [|by rewrite has_char_app, Hslash].
    rewrite filter_cons_True; [done|].
    unfold kept_part. by rewrite !yaml_name_neq by (simpl; lia).
Qed.

Lemma resolve_name_too_long fs p c k wr :
  resolve fs p = inr (k, Dir true wr) ->
  (NAME_MAX <? String.length c) = true ->
  resolve fs (mkPath (absolute p) (parts p ++ [c])) = inl ENAMETOOLONG.
Proof.
  unfold resolve, start. cbn [absolute parts]. intros Hres Hlen.
  rewrite walk_app.
  destruct (walk _ _ (parts p)) as [e|k'] eqn:Hw; [done|].
  destruct (fs_tree fs !! k') as [nd|] eqn:Hk; [|done].
  injection Hres as -> ->.
  cbn [walk]. unfold dir_step. rewrite Hk. cbn [negb]. by rewrite Hlen.
Qed.

(** C4.  [load_template] does raise for a name with no corresponding file.
    When [template_dir] is a directory that the process may search and
    [f"{name}.yaml"] is a single component longer than [NAME_MAX], no file
    is found at [{directory}/{name}.yaml], yet the existence check
    [file_path.exists()], which stands before the [try] statement, raises
    [OSError] "File name too long" to the caller: no [None], no log
    record. *)
Theorem load_missing_name_too_long_raises
    (yaml_safe_load : string -> Res PyValue) (n dir : string) (w : World)
    (k : list string) (wr : bool) :
  path_has_nul (Path dir) = false ->
  resolve (w_fs w) (Path dir) = inr (k, Dir true wr) ->
  has_char "/" n = false ->
  has_nul n = false ->
  (NAME_MAX <? String.length (n +:+ ".yaml")) = true ->
  (forall c, ~ file_present (w_fs w) (template_file n dir) c)
  /\ load_template yaml_safe_load n dir w
     = (Raise (os_error ENAMETOOLONG (template_file n dir)), w).
Proof.
  intros Hnul Hdir Hslash Hn Hlen.
  assert (template_file n dir
          = mkPath (absolute (Path dir)) (parts (Path dir) ++ [n +:+ ".yaml"]))
    as Hfile.
  { unfold template_file, joinpath. by rewrite Path_yaml_component. }
  pose proof (resolve_name_too_long _ _ _ _ _ Hdir Hlen) as Hres.
  rewrite <- Hfile in Hres. split.
  - intros c (_ & k' & Hk'). by rewrite Hres in Hk'.
  - rewrite load_template_unfold. cbv zeta. rewrite Path_exists_eq, Hres.
    assert (path_has_nul (template_file n dir) = false) as ->.
    { rewrite Hfile. unfold path_has_nul in *. cbn [parts].
      rewrite existsb_app, Hnul. cbn [existsb].
      by rewrite has_nul_app, Hn. }
    cbn [ignorable_errno]. by destruct w.
Qed.

Lemma load_missing_name_too_long_raises_witness :
  (forall c,
     ~ file_present Demo.t_fs (template_file Fixtures.long_name "t") c)
  /\ load_template FlatYaml.safe_load Fixtures.long_name "t"
       (mkWorld Demo.t_fs [])
     = (Raise (os_error ENAMETOOLONG (template_file Fixtures.long_name "t")),
        mkWorld Demo.t_fs []).
Proof.
  apply (load_missing_name_too_long_raises FlatYaml.safe_load
           Fixtures.long_name "t" (mkWorld Demo.t_fs []) ["home"; "t"] true).
  - reflexivity.
  - vm_compute. reflexivity.
  - vm_compute. reflexivity.
  - vm_compute. reflexivity.
  - vm_compute. reflexivity.
Defined.

Lemma store_creates_directory_witness :
  exists w',
    store_template FlatYaml.dump Demo.summary "test_template_3"
      "new_temp_dir/deeper" Demo.home = (Ok true, w')
    /\ is_directory (w_fs w') (Path "new_temp_dir/deeper")
    /\ file_present (w_fs w')
         (template_file "test_template_3" "new_temp_dir/deeper")
         (FlatYaml.dump Demo.summary).1.
Proof.
  apply (store_creates_directory FlatYaml.dump Demo.summary "test_template_3"
           "new_temp_dir/deeper" Demo.home).
  - split; [reflexivity|].
    exists [], "new_temp_dir", ["deeper"], ["home"].
    split; [reflexivity|]. split; [reflexivity|]. split; [reflexivity|]. split.
    + repeat constructor; try discriminate; vm_compute; lia.
    + refine (bool_decide_unpack _ _). vm_compute. exact I.
  - reflexivity.
  - reflexivity.
Defined.

(** In a directory where nothing may be created the store returns [False],
    and the directory asked for is not made. *)
Example store_read_only_parent :
  (store_template FlatYaml.dump Demo.summary "test_template_3" "ro/new"
     (mkWorld Demo.ro_fs [])).1 = Ok false.
Proof. vm_compute. reflexivity. Qed.

(** The store itself absorbs the fault that [load_template] lets through. *)
Example store_in_vault_returns_false :
  (store_template FlatYaml.dump Demo.greeting "greeting" "vault"
     (mkWorld Demo.vault_fs [])).1 = Ok false.
Proof. vm_compute. reflexivity. Qed.

(** ** The prompt executor *)

Section ExecutorFacts.

Context {Response : Type}.
Variable remote_generate :
  option string -> string -> string -> nat -> Res Response.
Variable response_text : Response -> Res string.

Lemma execute_prompt_unfold prompt model_name p :
  let outcome :=
    remote_generate (configured_key p) model_name prompt (length (requests p)) in
  execute_prompt remote_generate response_text prompt model_name p
  = (Ok (generated_text response_text outcome),
     after_request model_name prompt (call_fault response_text outcome) p).
Proof.
  unfold execute_prompt, generate_content, generated_text, call_fault,
    after_request, executor_error_line, print.
  run_monad.
  destruct (remote_generate _ _ _ _) as [r|e]; simpl.
  - destruct (response_text r) as [t|e]; simpl.
    + by rewrite app_nil_r.
    + by destruct (is_GoogleAPICallError e).
  - by destruct (is_GoogleAPICallError e).
Qed.

(** [execute_prompt] of [main.py] has no handler: a fault of the call
    leaves the function. *)
Lemma main_execute_prompt_propagates key prompt p e :
  remote_generate key "gemini-2.5-pro" prompt (length (requests p)) = Raise e ->
  (Main.execute_prompt remote_generate response_text key prompt p).1 = Raise e.
Proof.
  intros H. unfold Main.execute_prompt, generate_content, genai_configure.
  run_monad. by rewrite H.
Qed.

End ExecutorFacts.

(** C2.  For every prompt and model name, [execute_prompt] returns the text
    of the response when the remote call and the extraction of the text
    succeed, and returns [None] for every fault of either, among them every
    fault the remote capability signals; it never raises. *)
Theorem execute_prompt_contained {Response : Type}
    (remote_generate : option string -> string -> string -> nat -> Res Response)
    (response_text : Response -> Res string)
    (prompt model_name : string) (p : Process) :
  exists p',
    execute_prompt remote_generate response_text prompt model_name p
    = (Ok (generated_text response_text
             (remote_generate (configured_key p) model_name prompt
                (length (requests p)))), p').
Proof. eexists. apply execute_prompt_unfold. Qed.

(** ** Start-up *)

Lemma prompt_executor_startup_missing p :
  truthy (environ p !! "GOOGLE_API_KEY") = false ->
  prompt_executor_startup p
  = (Ok (SystemExit 1),
     mkProcess (environ p) (dotenv_file p) (configured_key p)
       (stdout p ++ [missing_key_line]) (requests p)).
Proof.
  intros H. unfold prompt_executor_startup, os_getenv, print. run_monad.
  by rewrite H.
Qed.

Lemma prompt_executor_startup_present p :
  truthy (environ p !! "GOOGLE_API_KEY") = true ->
  prompt_executor_startup p
  = (Ok Loaded,
     mkProcess (environ p) (dotenv_file p) (environ p !! "GOOGLE_API_KEY")
       (stdout p) (requests p)).
Proof.
  intros H. unfold prompt_executor_startup, os_getenv, genai_configure.
  run_monad. by rewrite H.
Qed.

(** C3, as the code has it.  When [GOOGLE_API_KEY] is unset or empty in the
    environment of a process that loads [prompt_executor], the module-level
    check prints one line and the process exits with status 1; the client
    code does not run and no request is sent. *)
Theorem prompt_executor_exits_without_key {A : Type}
    (client : M Process A) (p : Process) :
  truthy (environ p !! "GOOGLE_API_KEY") = false ->
  with_prompt_executor client p
  = (Ok (inl 1%Z),
     mkProcess (environ p) (dotenv_file p) (configured_key p)
       (stdout p ++ [missing_key_line]) (requests p))
  /\ fails_fast (with_prompt_executor client) p.
Proof.
  intros H.
  assert (with_prompt_executor client p
          = (Ok (inl 1%Z),
             mkProcess (environ p) (dotenv_file p) (configured_key p)
               (stdout p ++ [missing_key_line]) (requests p))) as Heq.
  { unfold with_prompt_executor, bind.
    by rewrite (prompt_executor_startup_missing _ H). }
  split; [done|]. eexists _, _. by rewrite Heq.
Qed.

Lemma prompt_executor_exits_without_key_witness :
  fails_fast
    (with_prompt_executor
       (execute_prompt DemoRemote.generate DemoRemote.text "Hello" DEFAULT_MODEL))
    (DemoRemote.process {[ "GOOGLE_API_KEY" := "" ]}).
Proof.
  apply (prompt_executor_exits_without_key
           (execute_prompt DemoRemote.generate DemoRemote.text "Hello" DEFAULT_MODEL)
           (DemoRemote.process {[ "GOOGLE_API_KEY" := "" ]})).
  vm_compute. reflexivity.
Defined.

(** C3, as stated, fails.  With a key that is set but not valid no valid
    credential is resolvable, yet the process passes the start-up check and
    sends the prompt (the remote capability then rejects it); and
    [main.py], which has no check, sends its prompt with no key at all
    before it ends with status 1. *)
Lemma startup_check_counterexample :
  let bogus := DemoRemote.process {[ "GOOGLE_API_KEY" := "bogus" ]} in
  let run :=
    with_prompt_executor
      (execute_prompt DemoRemote.generate DemoRemote.text "Hello" DEFAULT_MODEL) in
  (no_valid_credential DemoRemote.valid_key bogus /\ ~ fails_fast run bogus)
  /\ (no_valid_credential DemoRemote.valid_key (DemoRemote.process ∅)
      /\ exists p',
           exit_status (Main.script DemoRemote.generate DemoRemote.text)
             (DemoRemote.process ∅) = (1%Z, p')
           /\ requests p' = [("gemini-2.5-pro", "Hello")]).
Proof.
  split; split.
  - intros k Hk. vm_compute in Hk. by injection Hk as <-.
  - intros (code & p' & Heq & _ & _). vm_compute in Heq. discriminate.
  - intros k Hk. vm_compute in Hk. discriminate.
  - eexists. split; vm_compute; reflexivity.
Qed.

(** ** Values with cycles *)

Module ObjGraphFacts.
Import ObjGraph.

Lemma elem_of_container_ids h id :
  id ∈ container_ids h <-> exists o, h !! id = Some o /\ is_container o = true.
Proof.
  unfold container_ids. rewrite elem_of_dom. split.
  - intros [o [Ho Hc]%map_lookup_filter_Some]. eauto.
  - intros (o & Ho & Hc). exists o. by apply map_lookup_filter_Some.
Qed.

Lemma unseen_mono (C seen seen' : gset nat) :
  seen ⊆ seen' -> size (C ∖ seen') <= size (C ∖ seen).
Proof.
  intros Hsub. apply subseteq_size. intros x. rewrite !elem_of_difference.
  intros [? Hx]. split; [done|]. intros ?. by apply Hx, Hsub.
Qed.

Lemma unseen_visit (C seen : gset nat) id :
  id ∈ C -> id ∉ seen -> size (C ∖ ({[id]} ∪ seen)) < size (C ∖ seen).
Proof.
  intros HC Hs. apply subset_size. split.
  - intros x. rewrite !elem_of_difference, elem_of_union. intros [? Hx].
    split; [done|]. intros ?. apply Hx. by right.
  - intros Hsub. specialize (Hsub id). rewrite !elem_of_difference in Hsub.
    destruct Hsub as [_ Hn]; [done|]. apply Hn, elem_of_union. left.
    by apply elem_of_singleton.
Qed.

Lemma elem_of_insert_by_key {V} (x kv : string * V) l :
  x ∈ insert_by_key kv l -> x = kv \/ x ∈ l.
Proof.
  induction l as [|kv' l IH]; simpl.
  - intros ->%list_elem_of_singleton. by left.
  - destruct (String.leb kv.1 kv'.1).
    + intros [->|H]%elem_of_cons; [by left|by right].
    + intros [->|H]%elem_of_cons; [right; left|].
      destruct (IH H) as [->|?]; [by left|right; by right].
Qed.

Lemma elem_of_sort_by_key {V} (x : string * V) l : x ∈ sort_by_key l -> x ∈ l.
Proof.
  induction l as [|kv l IH]; simpl; [done|].
  intros [->|H]%elem_of_insert_by_key; [left|right; by apply IH].
Qed.

Lemma items_of_children o key i : (key, i) ∈ items_of o -> i ∈ children o.
Proof.
  destruct o; simpl; try by intros ?%elem_of_nil.
  - intros (j & [= _ ->] & Hj)%list_elem_of_fmap. done.
  - intros ([k j] & [= _ ->] & Hj%elem_of_sort_by_key)%list_elem_of_fmap.
    apply list_elem_of_fmap. by exists (k, j).
Qed.

(** The traversal of a list of items succeeds when that of each object
    does. *)
Lemma serialize_items_enough (h : gmap nat pyobj) d :
  (forall id seen,
     is_Some (h !! id) -> size (container_ids h ∖ seen) < d ->
     exists evs seen',
       serialize_node d h id seen = Ok (evs, seen') /\ seen ⊆ seen') ->
  forall items seen,
    Forall (fun ki => is_Some (h !! ki.2)) items ->
    size (container_ids h ∖ seen) < d ->
    exists evs seen',
      serialize_items (serialize_node d h) items seen = Ok (evs, seen')
      /\ seen ⊆ seen'.
Proof.
  intros Hnode. induction items as [|[key i] items IH]; intros seen Hin Hd.
  - simpl. eauto.
  - apply Forall_cons_1 in Hin as [Hi Hin]. simpl in *.
    destruct (Hnode i seen Hi Hd) as (ev1 & seen1 & -> & Hsub1).
    destruct (IH seen1 Hin) as (ev2 & seen2 & -> & Hsub2).
    { pose proof (unseen_mono (container_ids h) _ _ Hsub1). lia. }
    eexists _, _. split; [done|]. set_solver.
Qed.

(** The traversal needs no more depth than there are containers it has not
    met: every level of the recursion enters a new one. *)
Lemma serialize_node_enough (h : gmap nat pyobj) d :
  map_Forall (fun _ o => Forall (fun c => is_Some (h !! c)) (children o)) h ->
  forall id seen,
    is_Some (h !! id) -> size (container_ids h ∖ seen) < d ->
    exists evs seen',
      serialize_node d h id seen = Ok (evs, seen') /\ seen ⊆ seen'.
Proof.
  intros Hclosed. induction d as [|d IH]; intros id seen [o Ho] Hd; [lia|].
  simpl. rewrite Ho. destruct (is_container o) eqn:Hc; [|eauto].
  destruct (bool_decide (id ∈ seen)) eqn:Hseen; [eauto|].
  apply bool_decide_eq_false in Hseen.
  destruct (serialize_items_enough h d IH (items_of o) ({[id]} ∪ seen))
    as (evs & seen' & -> & Hsub).
  - apply Forall_forall. intros [key i] Hi%items_of_children. simpl.
    pose proof (Hclosed id o Ho) as Hall. simpl in Hall.
    rewrite Forall_forall in Hall. by apply Hall.
  - assert (id ∈ container_ids h) as HC by (apply elem_of_container_ids; eauto).
    pose proof (unseen_visit _ _ _ HC Hseen). lia.
  - eexists _, _. split; [done|]. set_solver.
Qed.

(** A value whose containers are fewer than the depth the interpreter
    allows is serialized, whatever its sharing and its cycles. *)
Lemma serialize_enough limit g :
  closed g -> size (container_ids (heap g)) < limit ->
  exists evs, serialize limit g = Ok evs.
Proof.
  intros [Hroot Hclosed] Hsize. unfold serialize.
  destruct (serialize_node_enough (heap g) limit Hclosed (root g) ∅ Hroot)
    as (evs & seen' & -> & _); [|eauto].
  by rewrite difference_empty_L.
Qed.

(** *** A cycle is written with an alias *)

Lemma elem_of_insert_by_key_2 {V} (x kv : string * V) l :
  x = kv \/ x ∈ l -> x ∈ insert_by_key kv l.
Proof.
  induction l as [|kv' l IH]; simpl.
  - intros [->|?%elem_of_nil]; [left|done].
  - destruct (String.leb kv.1 kv'.1).
    + intros [->|H]; [left|by right].
    + intros [->|[->|H]%elem_of_cons].
      * right. apply IH. by left.
      * left.
      * right. apply IH. by right.
Qed.

Lemma elem_of_sort_by_key_2 {V} (x : string * V) l : x ∈ l -> x ∈ sort_by_key l.
Proof.
  induction l as [|kv l IH]; simpl; [done|].
  intros [->|H]%elem_of_cons; apply elem_of_insert_by_key_2; [by left|].
  right. by apply IH.
Qed.

Lemma children_items_of o i : i ∈ children o -> exists key, (key, i) ∈ items_of o.
Proof.
  destruct o; simpl; try by intros ?%elem_of_nil.
  - intros Hi. exists None. apply list_elem_of_fmap. by exists i.
  - intros ([k j] & -> & Hj)%list_elem_of_fmap. exists (Some k).
    apply list_elem_of_fmap. exists (k, j). split; [done|].
    by apply elem_of_sort_by_key_2.
Qed.

Lemma children_container o i : i ∈ children o -> is_container o = true.
Proof. destruct o; simpl; try by intros ?%elem_of_nil. all: done. Qed.

Lemma aliased_app a b : aliased (a ++ b) = aliased a ++ aliased b.
Proof. apply omap_app. Qed.

Lemma aliased_cons ev evs :
  aliased (ev :: evs)
  = match ev with AliasEvent a => a :: aliased evs | _ => aliased evs end.
Proof. by destruct ev. Qed.

Lemma aliased_prune keep evs : aliased (map (prune_anchor keep) evs) = aliased evs.
Proof.
  induction evs as [|ev evs IH]; [done|]. cbn [map].
  rewrite !aliased_cons, IH. by destruct ev as [| [?|] | | [?|] | |].
Qed.

Lemma aliased_elem_of evs : aliased evs <> [] -> exists a, AliasEvent a ∈ evs.
Proof.
  induction evs as [|ev evs IH]; [done|]. rewrite aliased_cons.
  destruct ev; try (intros (a & Ha)%IH; exists a; by right).
  intros _. eexists. left.
Qed.

Lemma serialize_items_no_alias (h : gmap nat pyobj) d :
  (forall id seen evs seen',
     serialize_node d h id seen = Ok (evs, seen') -> aliased evs = [] ->
     seen ⊆ seen'
     /\ (container_at h id -> id ∈ seen' ∖ seen)
     /\ exists rank, ranked h (seen' ∖ seen) rank) ->
  forall items seen evs seen',
    serialize_items (serialize_node d h) items seen = Ok (evs, seen') ->
    aliased evs = [] ->
    seen ⊆ seen'
    /\ (forall key i, (key, i) ∈ items -> container_at h i -> i ∈ seen' ∖ seen)
    /\ exists rank, ranked h (seen' ∖ seen) rank.
Proof.
  intros Hnode. induction items as [|[key i] items IH]; intros seen evs seen'.
  - simpl. intros [= <- <-] _. split; [done|]. split.
    + by intros ?? ?%elem_of_nil.
    + exists (fun _ => 0). intros x o y Hx. exfalso. revert Hx.
      rewrite elem_of_difference. tauto.
  - simpl. destruct (serialize_node d h i seen) as [[ev1 seen1]|] eqn:H1; [|done].
    destruct (serialize_items _ items seen1) as [[ev2 seen2]|] eqn:H2; [|done].
    intros [= <- <-]. rewrite !aliased_app.
    intros [_ [Ha1 Ha2]%app_eq_nil]%app_eq_nil.
    destruct (Hnode _ _ _ _ H1 Ha1) as (Hs1 & Hi1 & rank1 & Hr1).
    destruct (IH _ _ _ H2 Ha2) as (Hs2 & Hi2 & rank2 & Hr2).
    split; [by etrans|]. split.
    + intros key' i' [[= -> ->]|Hin]%elem_of_cons Hc.
      * specialize (Hi1 Hc). revert Hi1. rewrite !elem_of_difference.
        intros [? ?]. split; [by apply Hs2|done].
      * specialize (Hi2 _ _ Hin Hc). revert Hi2. rewrite !elem_of_difference.
        intros [? Hn]. split; [done|]. intros ?. by apply Hn, Hs1.
    + exists (fun x => if bool_decide (x ∈ seen1) then rank1 x else rank2 x).
      intros x o y Hx Ho Hy Hc. revert Hx. rewrite elem_of_difference.
      intros [Hx2 Hx0].
      destruct (bool_decide (x ∈ seen1)) eqn:Hx1.
      * apply bool_decide_eq_true in Hx1.
        destruct (Hr1 x o y) as [Hy1 Hlt]; try done.
        { by apply elem_of_difference. }
        revert Hy1. rewrite elem_of_difference. intros [Hy1 Hy0].
        rewrite bool_decide_eq_true_2 by done. split; [|done].
        apply elem_of_difference. split; [by apply Hs2|done].
      * apply bool_decide_eq_false in Hx1.
        destruct (Hr2 x o y) as [Hy2 Hlt]; try done.
        { by apply elem_of_difference. }
        revert Hy2. rewrite elem_of_difference. intros [Hy2 Hy1].
        rewrite bool_decide_eq_false_2 by done. split; [|done].
        apply elem_of_difference. split; [done|]. intros ?. by apply Hy1, Hs1.
Qed.

Lemma rank_bound (rank : nat -> nat) (l : list nat) y :
  y ∈ l -> rank y <= foldr Nat.max 0 (map rank l).
Proof.
  induction l as [|a l IH]; [by intros ?%elem_of_nil|]. simpl.
  intros [->|H]%elem_of_cons; [lia|]. specialize (IH H). lia.
Qed.

Lemma serialize_node_no_alias (h : gmap nat pyobj) d :
  forall id seen evs seen',
    serialize_node d h id seen = Ok (evs, seen') -> aliased evs = [] ->
    seen ⊆ seen'
    /\ (container_at h id -> id ∈ seen' ∖ seen)
    /\ exists rank, ranked h (seen' ∖ seen) rank.
Proof.
  induction d as [|d IH]; intros id seen evs seen'; [done|]. simpl.
  destruct (h !! id) as [o|] eqn:Ho; [|done].
  destruct (is_container o) eqn:Hc.
  - destruct (bool_decide (id ∈ seen)) eqn:Hseen; [by intros [= <- <-]|].
    apply bool_decide_eq_false in Hseen.
    destruct (serialize_items _ (items_of o) _) as [[evs0 seen0]|] eqn:Hit;
      [|done].
    intros [= <- <-]. rewrite aliased_cons, aliased_app.
    intros Ha.
    assert (aliased evs0 = []) as Ha0.
    { destruct o; simpl in Ha; try done; by apply app_eq_nil in Ha as [? _]. }
    destruct (serialize_items_no_alias h d IH _ _ _ _ Hit Ha0)
      as (Hs & Hi & rank0 & Hr0).
    assert (id ∈ seen0) as Hid0 by (apply Hs, elem_of_union; left; by apply elem_of_singleton).
    split; [|split].
    + intros x Hx. apply Hs, elem_of_union. by right.
    + intros _. by apply elem_of_difference.
    + exists (fun x => if bool_decide (x = id)
                       then S (foldr Nat.max 0 (map rank0 (children o)))
                       else rank0 x).
      assert (forall y, y ∈ seen0 ∖ ({[id]} ∪ seen) -> y <> id) as Hne.
      { intros y. rewrite elem_of_difference, elem_of_union, elem_of_singleton.
        intros [_ Hn] ->. by apply Hn; left. }
      assert (forall y, y ∈ seen0 ∖ ({[id]} ∪ seen) -> y ∈ seen0 ∖ seen) as Hin.
      { intros y. rewrite !elem_of_difference, elem_of_union.
        intros [? Hn]. split; [done|]. intros ?. apply Hn. by right. }
      intros x o' y Hx Ho' Hy Hcy.
      destruct (bool_decide (x = id)) eqn:Hxid.
      * apply bool_decide_eq_true in Hxid. subst x.
        assert (o' = o) as -> by congruence.
        destruct (children_items_of _ _ Hy) as [key Hkey].
        pose proof (Hi _ _ Hkey Hcy) as Hy0.
        rewrite bool_decide_eq_false_2 by (by apply Hne).
        split; [by apply Hin|].
        pose proof (rank_bound rank0 _ _ Hy). lia.
      * apply bool_decide_eq_false in Hxid.
        assert (x ∈ seen0 ∖ ({[id]} ∪ seen)) as Hx0.
        { revert Hx. rewrite !elem_of_difference, elem_of_union, elem_of_singleton.
          intros [? Hn]. split; [done|]. intros [?|?]; [done|by apply Hn]. }
        destruct (Hr0 x o' y Hx0 Ho' Hy Hcy) as [Hy0 Hlt].
        rewrite bool_decide_eq_false_2 by (by apply Hne).
        split; [by apply Hin|done].
  - intros [= <- <-] _. split; [done|]. split.
    + intros (o' & Ho' & Hc'). congruence.
    + exists (fun _ => 0). intros x o' y Hx. exfalso. revert Hx.
      rewrite elem_of_difference. tauto.
Qed.

Lemma tc_first {A} (R : relation A) x y : tc R x y -> exists z, R x z.
Proof. intros H. destruct H; eauto. Qed.

(** A value with a cycle is never written without an alias. *)
Lemma cycle_aliased limit g evs :
  has_cycle g -> serialize limit g = Ok evs -> aliased evs <> [].
Proof.
  intros (a & Hreach & Hcyc). unfold serialize.
  destruct (serialize_node limit (heap g) (root g) ∅) as [[evs0 seen']|] eqn:Hser;
    [|done].
  intros [= <-]. rewrite aliased_prune. intros Ha.
  destruct (serialize_node_no_alias _ _ _ _ _ _ Hser Ha)
    as (_ & Hroot & rank & Hr).
  rewrite difference_empty_L in Hroot, Hr.
  assert (forall x y, refers (heap g) x y -> container_at (heap g) x) as Hsrc.
  { intros x y (o & Ho & Hy). exists o. split; [done|].
    by eapply children_container. }
  assert (forall x, rtc (refers (heap g)) (root g) x ->
                    container_at (heap g) x -> x ∈ seen') as Hnew.
  { apply (rtc_ind_r (fun x => container_at (heap g) x -> x ∈ seen')); [done|].
    intros x y _ Hstep IH Hcy. pose proof Hstep as (o & Ho & Hy).
    by destruct (Hr x o y (IH (Hsrc _ _ Hstep)) Ho Hy Hcy). }
  assert (forall x y, tc (refers (heap g)) x y -> x ∈ seen' ->
                      container_at (heap g) y -> y ∈ seen' /\ rank y < rank x)
    as Htc.
  { intros x y Hxy. induction Hxy as [x y Hstep|x z y Hstep Hzy IH];
      intros Hx Hcy.
    - destruct Hstep as (o & Ho & Hy). by apply (Hr x o y).
    - assert (container_at (heap g) z) as Hcz.
      { destruct (tc_first _ _ _ Hzy) as [z' Hz']. by eapply Hsrc. }
      pose proof Hstep as (o & Ho & Hz).
      destruct (Hr x o z Hx Ho Hz Hcz) as [Hz' Hlt].
      destruct (IH Hz' Hcy) as [Hy' Hlt']. split; [done|lia]. }
  assert (container_at (heap g) a) as Hca.
  { destruct (tc_first _ _ _ Hcyc) as [z' Hz']. by eapply Hsrc. }
  destruct (Htc a a Hcyc (Hnew a Hreach Hca) Hca) as [_ Hlt]. lia.
Qed.

End ObjGraphFacts.

(** C8.  Storing a value that contains a self-reference terminates with a
    boolean and raises nothing: [True] together with an informational
    record, or [False] together with an error record.  When the containers
    of the value are fewer than the nesting depth the interpreter allows,
    serialization succeeds, the event stream holds an alias (the cycle is
    closed by a reference to an anchor, not followed) and the dump is what
    the emitter writes for that stream. *)
Theorem store_cyclic_value_terminates
    (emitter : list ObjGraph.event -> string * option exc) (limit : nat)
    (g : ObjGraph.graph) (n dir : string) (w : World) :
  ObjGraph.has_cycle g ->
  (exists b w' msg,
     store_template (ObjGraph.dump emitter limit) g n dir w = (Ok b, w')
     /\ w_log w' = w_log w ++ [mkLog (if b then INFO else ERROR) msg])
  /\ (ObjGraph.closed g ->
      size (ObjGraph.container_ids (ObjGraph.heap g)) < limit ->
      exists evs a,
        ObjGraph.serialize limit g = Ok evs
        /\ ObjGraph.AliasEvent a ∈ evs
        /\ ObjGraph.dump emitter limit g = emitter evs).
Proof.
  intros Hcycle. split.
  - rewrite store_template_unfold.
    destruct (Path_mkdir _ _ _ _) as [[[]|e] fs1]; [|by eexists _, _, _].
    destruct (open_w _ fs1) as [[k|e] fs2]; [|by eexists _, _, _]. simpl.
    destruct (ObjGraph.dump emitter limit g).2; by eexists _, _, _.
  - intros Hclosed Hsize.
    destruct (ObjGraphFacts.serialize_enough limit g Hclosed Hsize) as [evs Hevs].
    destruct (ObjGraphFacts.aliased_elem_of evs) as [a Ha].
    { by eapply ObjGraphFacts.cycle_aliased. }
    exists evs, a. split; [done|]. split; [done|].
    unfold ObjGraph.dump. by rewrite Hevs.
Qed.

Lemma store_cyclic_value_terminates_witness :
  (store_template (ObjGraph.dump ObjGraph.flow_emitter ObjGraph.demo_limit)
     ObjGraph.self_referential "circular_ref_template" "t" Demo.home).1
  = Ok true
  /\ exists evs,
       ObjGraph.serialize ObjGraph.demo_limit ObjGraph.self_referential = Ok evs
       /\ ObjGraph.AliasEvent 0 ∈ evs.
Proof.
  destruct (store_cyclic_value_terminates ObjGraph.flow_emitter
              ObjGraph.demo_limit ObjGraph.self_referential
              "circular_ref_template" "t" Demo.home) as [_ Hser].
  - exists 0. split; [apply rtc_refl|]. apply tc_once. eexists. split.
    + reflexivity.
    + simpl. apply list_elem_of_here.
  - split; [vm_compute; reflexivity|].
    destruct Hser as (evs & a & Hevs & Ha & _).
    + split; [by eexists|]. refine (bool_decide_unpack _ _). vm_compute. exact I.
    + vm_compute. lia.
    + exists evs. split; [done|].
      vm_compute in Hevs. injection Hevs as <-.
      refine (bool_decide_unpack _ _). vm_compute. exact I.
Defined.

(** * Further properties of the template store *)

Section StoreOutcome.

Context {Data : Type}.
Variable yaml_dump : Data -> string * option exc.
Variable yaml_safe_load : string -> Res PyValue.

(** X1.  [store_template] never raises, and every call adds exactly one
    record to the log: an informational one when it returns [True], an error
    one when it returns [False]. *)
Theorem store_template_outcome d n dir w :
  exists b w' msg,
    store_template yaml_dump d n dir w = (Ok b, w')
    /\ w_log w' = w_log w ++ [mkLog (if b then INFO else ERROR) msg].
Proof.
  rewrite store_template_unfold.
  destruct (Path_mkdir _ _ _ _) as [[[]|e] fs1]; [|by eexists _, _, _].
  destruct (open_w _ fs1) as [[k|e] fs2]; [|by eexists _, _, _]. simpl.
  destruct (yaml_dump d).2; by eexists _, _, _.
Qed.

(** X7.  [load_template] never writes: whatever it returns or raises, the
    file system is the one it was given.  When it returns it has added
    exactly one record to the log, and none when it raises. *)
Theorem load_template_read_only n dir w :
  w_fs (load_template yaml_safe_load n dir w).2 = w_fs w
  /\ match (load_template yaml_safe_load n dir w).1 with
     | Ok _ =>
         exists l msg,
           w_log (load_template yaml_safe_load n dir w).2
           = w_log w ++ [mkLog l msg]
     | Raise _ => w_log (load_template yaml_safe_load n dir w).2 = w_log w
     end.
Proof.
  rewrite load_template_unfold. simpl. rewrite Path_exists_eq.
  destruct (path_has_nul _); simpl; [by eauto|].
  destruct (resolve _ _) as [e|[k nd]] eqn:Hres; simpl.
  - destruct (ignorable_errno e); simpl; by eauto.
  - destruct (open_r _ _); simpl; [|by eauto].
    destruct (yaml_safe_load _); simpl; by eauto.
Qed.

End StoreOutcome.

(** ** What can leave [load_template] *)

(** X8.  Whatever leaves [load_template] comes from the existence check:
    it is the very exception that [os.stat] raised inside
    [file_path.exists()], an [OSError] that [pathlib] does not read as "not
    there".  Nothing that [open] or [yaml.safe_load] raises leaves the
    function, and when it raises it has logged nothing and changed
    nothing. *)
Theorem load_template_escapes
    (yaml_safe_load : string -> Res PyValue) (n dir : string) (w : World)
    (e : exc) :
  (load_template yaml_safe_load n dir w).1 = Raise e ->
  os_stat (template_file n dir) (w_fs w) = Raise e
  /\ is_IOError e = true
  /\ ignore_error e = false
  /\ (load_template yaml_safe_load n dir w).2 = w.
Proof.
  rewrite load_template_unfold. cbv zeta. rewrite Path_exists_eq.
  unfold os_stat.
  destruct (path_has_nul _); [done|].
  destruct (resolve _ _) as [e'|[k nd]] eqn:Hres.
  - destruct (ignorable_errno e') eqn:Hig; [done|].
    cbn [fst snd]. intros [= <-].
    destruct w. by destruct e'.
  - destruct (open_r _ _); [|done]. by destruct (yaml_safe_load _).
Qed.

Lemma load_template_escapes_witness :
  os_stat (template_file "notes" "vault") Demo.vault_fs
  = Raise (Exc (OSError EACCES)
             "[Errno 13] Permission denied: 'vault/notes.yaml'")
  /\ is_IOError (Exc (OSError EACCES)
                   "[Errno 13] Permission denied: 'vault/notes.yaml'") = true
  /\ ignore_error (Exc (OSError EACCES)
                     "[Errno 13] Permission denied: 'vault/notes.yaml'") = false
  /\ (load_template FlatYaml.safe_load "notes" "vault"
        (mkWorld Demo.vault_fs [])).2
     = mkWorld Demo.vault_fs [].
Proof.
  apply (load_template_escapes FlatYaml.safe_load "notes" "vault"
           (mkWorld Demo.vault_fs [])).
  vm_compute. reflexivity.
Defined.

(** X9.  When [{directory}/{name}.yaml] is a directory, the existence check
    passes, [open] raises [IsADirectoryError], and [load_template] returns
    [None] with the error record of the [IOError] clause. *)
Theorem load_template_directory
    (yaml_safe_load : string -> Res PyValue) (n dir : string) (w : World) :
  is_directory (w_fs w) (template_file n dir) ->
  load_template yaml_safe_load n dir w
  = (Ok PyNone,
     logged ERROR
       ("Failed to read file for template '" +:+ n +:+ "': "
        +:+ exc_msg (os_error EISDIR (template_file n dir)))
       (w_fs w) w).
Proof.
  intros [Hnul (k & x & wr & Hres)]. rewrite load_template_unfold. simpl.
  rewrite Path_exists_eq, Hnul, Hres. unfold open_r. by rewrite Hnul, Hres.
Qed.

Lemma load_template_directory_witness :
  (load_template FlatYaml.safe_load "notes" "t"
     (mkWorld Fixtures.nested_fs [])).1 = Ok PyNone.
Proof.
  rewrite (load_template_directory FlatYaml.safe_load "notes" "t"
             (mkWorld Fixtures.nested_fs [])); [reflexivity|].
  split; [reflexivity|]. eexists _, _, _. vm_compute. reflexivity.
Defined.

(** ** Composition of stores *)

Section StoreCompose.

Context {Data : Type}.
Variable yaml_dump : Data -> string * option exc.

(** X3.  Storing the same value again under the same name changes nothing
    in the file system: the second call succeeds and leaves the tree of the
    first. *)
Theorem store_template_idempotent d n dir w w1 :
  store_template yaml_dump d n dir w = (Ok true, w1) ->
  store_template yaml_dump d n dir w1
  = (Ok true, logged INFO (stored_message n dir) (w_fs w1) w1).
Proof.
  intros (fs1 & k & fs2 & Hmk & Hopen & Hd & ->)%store_template_true_steps.
  pose proof Hmk as Hdir%Path_mkdir_ok.
  pose proof Hopen as (Hnul & Hwalk & Hk & ->)%open_w_inv.
  pose proof (open_w_again _ _ _ _ (yaml_dump d).1 Hopen) as Hagain.
  set (fs3 := write k (yaml_dump d).1 _) in *.
  assert (is_directory fs3 (Path dir)) as Hdir3.
  { unfold fs3, write. simpl. rewrite lookup_insert_eq. simpl.
    rewrite insert_insert_eq. destruct fs1 as [t cwd]. by apply is_directory_insert. }
  rewrite store_template_unfold. simpl.
  by rewrite (Path_mkdir_existing _ _ _ Hdir3), Hagain, Hd.
Qed.

(** X2.  The overwrite is not atomic: when a template is stored and a later
    store under the same name fails inside [yaml.dump], the call returns
    [False] with one error record and the file holds only what the dump
    wrote before it failed; the earlier contents are gone. *)
Theorem store_template_failed_dump d1 d2 n dir w w1 e :
  store_template yaml_dump d1 n dir w = (Ok true, w1) ->
  (yaml_dump d2).2 = Some e ->
  exists fs2,
    store_template yaml_dump d2 n dir w1
    = (Ok false, logged ERROR (store_error_message n e) fs2 w1)
    /\ file_present fs2 (template_file n dir) (yaml_dump d2).1.
Proof.
  intros (fs1 & k & fs2 & Hmk & Hopen & _ & ->)%store_template_true_steps Hd2.
  pose proof Hmk as Hdir%Path_mkdir_ok.
  pose proof Hopen as (Hnul & Hwalk & Hk & ->)%open_w_inv.
  pose proof (open_w_again _ _ _ _ (yaml_dump d1).1 Hopen) as Hagain.
  set (fs3 := write k (yaml_dump d1).1 _) in *.
  assert (is_directory fs3 (Path dir)) as Hdir3.
  { unfold fs3, write. simpl. rewrite lookup_insert_eq. simpl.
    rewrite insert_insert_eq. destruct fs1 as [t cwd]. by apply is_directory_insert. }
  rewrite store_template_unfold. simpl.
  rewrite (Path_mkdir_existing _ _ _ Hdir3), Hagain, Hd2. simpl.
  eexists. split; [done|].
  eapply written_file_present. unfold open_w. rewrite Hnul.
  unfold open_w in Hagain. rewrite Hnul in Hagain. exact Hagain.
Qed.

(** X5.  When the template directory is there already, a successful store
    changes one key of the tree and nothing else: the key of the template
    file, which then holds the dumped text. *)
Theorem store_template_existing_directory d n dir w w' :
  is_directory (w_fs w) (Path dir) ->
  store_template yaml_dump d n dir w = (Ok true, w') ->
  exists k,
    resolve (w_fs w') (template_file n dir) = inr (k, File (yaml_dump d).1)
    /\ fs_tree (w_fs w') = <[k := File (yaml_dump d).1]> (fs_tree (w_fs w))
    /\ fs_cwd (w_fs w') = fs_cwd (w_fs w).
Proof.
  intros Hdir (fs1 & k & fs2 & Hmk & Hopen & Hd & ->)%store_template_true_steps.
  rewrite (Path_mkdir_existing _ _ _ Hdir) in Hmk. injection Hmk as <-.
  pose proof (written_file_present _ _ _ _ (yaml_dump d).1 Hopen) as [_ [k' Hres]].
  pose proof Hopen as (Hnul & Hwalk & Hk & ->)%open_w_inv.
  exists k. simpl. unfold write in *. simpl in *.
  rewrite lookup_insert_eq in *. simpl in *. rewrite insert_insert_eq in *.
  split; [|done].
  unfold resolve in *. simpl in *.
  rewrite (walk_insert _ _ _ _ _ _ Hwalk Hk) in *.
  by rewrite lookup_insert_eq in *.
Qed.

End StoreCompose.

Lemma store_template_idempotent_witness :
  store_template FlatYaml.dump Demo.greeting "greeting" "t"
    (store_template FlatYaml.dump Demo.greeting "greeting" "t" Demo.home).2
  = (Ok true,
     logged INFO (stored_message "greeting" "t")
       (w_fs (store_template FlatYaml.dump Demo.greeting "greeting" "t" Demo.home).2)
       (store_template FlatYaml.dump Demo.greeting "greeting" "t" Demo.home).2).
Proof.
  apply (store_template_idempotent FlatYaml.dump Demo.greeting "greeting" "t"
           Demo.home).
  vm_compute. reflexivity.
Defined.

Lemma store_template_failed_dump_witness :
  exists fs2,
    store_template Fixtures.dump_object Fixtures.Generator "greeting" "t"
      (store_template Fixtures.dump_object (Fixtures.Document Demo.greeting)
         "greeting" "t" Demo.home).2
    = (Ok false,
       logged ERROR (store_error_message "greeting" Fixtures.generator_error)
         fs2
         (store_template Fixtures.dump_object
            (Fixtures.Document Demo.greeting) "greeting" "t" Demo.home).2)
    /\ file_present fs2 (template_file "greeting" "t") "".
Proof.
  apply (store_template_failed_dump Fixtures.dump_object
           (Fixtures.Document Demo.greeting) Fixtures.Generator
           "greeting" "t" Demo.home).
  - vm_compute. reflexivity.
  - reflexivity.
Defined.

Lemma store_template_existing_directory_witness :
  exists k,
    resolve
      (w_fs (store_template FlatYaml.dump Demo.greeting "greeting" "t"
               (mkWorld Demo.t_fs [])).2)
      (template_file "greeting" "t")
    = inr (k, File (FlatYaml.dump Demo.greeting).1)
    /\ fs_tree
         (w_fs (store_template FlatYaml.dump Demo.greeting "greeting" "t"
                  (mkWorld Demo.t_fs [])).2)
       = <[k := File (FlatYaml.dump Demo.greeting).1]> (fs_tree Demo.t_fs)
    /\ fs_cwd
         (w_fs (store_template FlatYaml.dump Demo.greeting "greeting" "t"
                  (mkWorld Demo.t_fs [])).2)
       = fs_cwd Demo.t_fs.
Proof.
  apply (store_template_existing_directory FlatYaml.dump Demo.greeting
           "greeting" "t" (mkWorld Demo.t_fs [])).
  - split; [reflexivity|]. eexists _, _, _. vm_compute. reflexivity.
  - vm_compute. reflexivity.
Defined.

(** ** What a store leaves alone *)

Lemma tree_grows_refl t : tree_grows t t.
Proof. by intros k n. Qed.

Ltac same_fs := intros [= _ <-]; split; [reflexivity | apply tree_grows_refl].

Lemma os_mkdir_grows p fs r fs' :
  os_mkdir p fs = (r, fs') ->
  fs_cwd fs' = fs_cwd fs /\ tree_grows (fs_tree fs) (fs_tree fs').
Proof.
  unfold os_mkdir. destruct (path_has_nul p); [same_fs|].
  destruct (entry_slot fs p) as [?|[k w]]; [same_fs|].
  destruct (fs_tree fs !! k) eqn:Hk; [same_fs|].
  destruct w; [|same_fs].
  intros [= _ <-]. simpl. split; [done|]. intros k' n Hk'.
  rewrite lookup_insert_ne; [done|]. intros ->. congruence.
Qed.

Lemma mkdir_exists_clause_fs p exist_ok e fs r fs' :
  (mkdir_exists_clause p exist_ok).2 e fs = (r, fs') -> fs' = fs.
Proof.
  unfold mkdir_exists_clause. simpl. destruct exist_ok; simpl;
    [|by intros [= _ <-]].
  run_monad. rewrite Path_is_dir_eq.
  destruct (path_has_nul p); simpl; [by intros [= _ <-]|].
  destruct (resolve fs p) as [e'|[k n]]; simpl.
  - destruct (ignorable_errno e'); by intros [= _ <-].
  - destruct (S_ISDIR n); by intros [= _ <-].
Qed.

Lemma tree_grows_trans t1 t2 t3 :
  tree_grows t1 t2 -> tree_grows t2 t3 -> tree_grows t1 t3.
Proof. unfold tree_grows. eauto. Qed.

Lemma mkdir_once_grows p exist_ok fs r fs' :
  mkdir_once p exist_ok fs = (r, fs') ->
  fs_cwd fs' = fs_cwd fs /\ tree_grows (fs_tree fs) (fs_tree fs').
Proof.
  unfold mkdir_once, try_except.
  destruct (os_mkdir p fs) as [[[]|e] fs1] eqn:Hmk.
  - intros [= _ <-]. by eapply os_mkdir_grows.
  - apply os_mkdir_error_fs in Hmk as ->. simpl.
    destruct (is_FileNotFoundError e); [same_fs|].
    destruct (is_IOError e); [|same_fs].
    intros ->%mkdir_exists_clause_fs. split; [done|apply tree_grows_refl].
Qed.

(** [mkdir] only adds directories: every node that was there stays, whether
    the call succeeds or fails on the way. *)
Lemma mkdir_rev_grows abs rp : forall parents exist_ok fs r fs',
  mkdir_rev abs rp parents exist_ok fs = (r, fs') ->
  fs_cwd fs' = fs_cwd fs /\ tree_grows (fs_tree fs) (fs_tree fs').
Proof.
  induction rp as [|c rp IH]; intros parents exist_ok fs r fs'.
  - simpl. unfold try_except.
    destruct (os_mkdir _ fs) as [[[]|e] fs1] eqn:Hmk.
    + intros [= _ <-]. by eapply os_mkdir_grows.
    + apply os_mkdir_error_fs in Hmk as ->. simpl.
      destruct (is_FileNotFoundError e); [same_fs|].
      destruct (is_IOError e); [|same_fs].
      intros ->%mkdir_exists_clause_fs. split; [done|apply tree_grows_refl].
  - rewrite mkdir_rev_cons. unfold try_except.
    destruct (os_mkdir _ fs) as [[[]|e] fs1] eqn:Hmk.
    + intros [= _ <-]. by eapply os_mkdir_grows.
    + apply os_mkdir_error_fs in Hmk as ->. cbn -[mkdir_rev mkdir_once].
      destruct (is_FileNotFoundError e).
      * destruct parents; cbn -[mkdir_rev mkdir_once]; [|same_fs].
        unfold bind.
        destruct (mkdir_rev abs rp true true fs) as [[[]|e1] fs2] eqn:Hrec.
        -- destruct (IH _ _ _ _ _ Hrec) as [Hc1 Hg1].
           intros [Hc2 Hg2]%mkdir_once_grows. split; [congruence|].
           by eapply tree_grows_trans.
        -- intros [= _ <-]. by eapply IH.
      * destruct (is_IOError e); [|same_fs].
        intros ->%mkdir_exists_clause_fs. split; [done|apply tree_grows_refl].
Qed.

Lemma dir_step_grows t t' cur c k :
  tree_grows t t' -> dir_step t cur c = inr k -> dir_step t' cur c = inr k.
Proof.
  unfold dir_step. intros Hg.
  destruct (t !! cur) as [[?|x w]|] eqn:Hcur; try done.
  by rewrite (Hg _ _ Hcur).
Qed.

Lemma walk_grows t t' cs : forall cur k,
  tree_grows t t' -> walk t cur cs = inr k -> walk t' cur cs = inr k.
Proof.
  induction cs as [|c cs IH]; intros cur k Hg; simpl; [done|].
  destruct (dir_step t cur c) as [|cur'] eqn:Hs; [done|].
  rewrite (dir_step_grows _ _ _ _ _ Hg Hs). by apply IH.
Qed.

Lemma resolve_grows fs fs' q k n :
  fs_cwd fs' = fs_cwd fs -> tree_grows (fs_tree fs) (fs_tree fs') ->
  resolve fs q = inr (k, n) -> resolve fs' q = inr (k, n).
Proof.
  unfold resolve, start. intros -> Hg.
  destruct (walk (fs_tree fs) _ _) as [|k0] eqn:Hw; [done|].
  rewrite (walk_grows _ _ _ _ _ Hg Hw).
  destruct (fs_tree fs !! k0) as [n0|] eqn:Hk0; [|done].
  by rewrite (Hg _ _ Hk0).
Qed.

Lemma open_w_error_fs p fs e fs' : open_w p fs = (Raise e, fs') -> fs' = fs.
Proof.
  unfold open_w. destruct (path_has_nul p); [congruence|].
  destruct (entry_slot fs p) as [[]|[k w]]; try congruence.
  destruct (fs_tree fs !! k) as [[?|? ?]|]; try congruence.
  destruct w; congruence.
Qed.

(** X4.  A store never disturbs another file: a regular file that a path
    [q] resolves to before the call is still found through [q] afterwards,
    at the same place and with the same contents, whether the store
    succeeds or fails, unless it is the very file the store opened. *)
Theorem store_template_isolation {Data : Type}
    (yaml_dump : Data -> string * option exc) (d : Data) (n dir : string)
    (w : World) (q : PurePath) (k : list string) (c : string) :
  resolve (w_fs w) q = inr (k, File c) ->
  (forall nd,
     resolve (w_fs (store_template yaml_dump d n dir w).2) (template_file n dir)
     <> inr (k, nd)) ->
  resolve (w_fs (store_template yaml_dump d n dir w).2) q = inr (k, File c).
Proof.
  intros Hq. rewrite store_template_unfold.
  destruct (Path_mkdir _ _ _ _) as [r1 fs1] eqn:Hmk.
  assert (resolve fs1 q = inr (k, File c)) as Hq1.
  { unfold Path_mkdir in Hmk. apply mkdir_rev_grows in Hmk as [Hc Hg].
    by eapply resolve_grows. }
  destruct r1 as [[]|e]; [|done].
  destruct (open_w _ fs1) as [[kf|e] fs2] eqn:Hopen.
  2:{ apply open_w_error_fs in Hopen as ->. done. }
  pose proof (written_file_present _ _ _ _ (yaml_dump d).1 Hopen) as [_ [k' Hres]].
  pose proof Hopen as (Hnul & Hwalk & Hkf & ->)%open_w_inv.
  assert (k' = kf) as ->.
  { revert Hres. unfold write, resolve. simpl. rewrite lookup_insert_eq. simpl.
    rewrite insert_insert_eq, (walk_insert _ _ _ _ _ _ Hwalk Hkf).
    rewrite lookup_insert_eq. congruence. }
  assert (forall fs, fs = write kf (yaml_dump d).1
                          (mkFS (<[kf := File ""]> (fs_tree fs1)) (fs_cwd fs1)) ->
            (forall nd, resolve fs (template_file n dir) <> inr (k, nd)) ->
            resolve fs q = inr (k, File c)) as Hmain.
  { intros fs -> Hne. assert (k <> kf) as Hk by (intros ->; by eapply Hne).
    revert Hq1. unfold write, resolve. simpl. rewrite lookup_insert_eq. simpl.
    rewrite insert_insert_eq.
    destruct (walk (fs_tree fs1) _ (parts q)) as [|k0] eqn:Hw; [done|].
    rewrite (walk_insert _ _ _ _ _ _ Hw Hkf).
    destruct (fs_tree fs1 !! k0) as [n0|] eqn:Hk0; [|done].
    intros [= -> ->]. by rewrite lookup_insert_ne, Hk0. }
  simpl. destruct (yaml_dump d).2; simpl; intros Hne; by apply Hmain.
Qed.

Lemma store_template_isolation_witness :
  resolve
    (w_fs (store_template FlatYaml.dump Demo.greeting "greeting" "t"
             (mkWorld Fixtures.nested_fs [])).2)
    (template_file "other" "t")
  = inr (["home"; "t"; "other.yaml"], File "role: user").
Proof.
  apply (store_template_isolation FlatYaml.dump Demo.greeting "greeting" "t"
           (mkWorld Fixtures.nested_fs []) (template_file "other" "t")).
  - vm_compute. reflexivity.
  - intros nd H. vm_compute in H. discriminate.
Defined.

(** ** A template directory that is a regular file *)

Lemma Path_mkdir_on_file p fs k c :
  path_has_nul p = false -> resolve fs p = inr (k, File c) ->
  Path_mkdir p true true fs = (Raise (os_error EEXIST p), fs).
Proof.
  intros Hnul Hres. unfold Path_mkdir.
  assert (mkPath (absolute p) (rev (rev (parts p))) = p) as Hp
    by (rewrite rev_involutive; by destruct p).
  assert (os_mkdir p fs = (Raise (os_error EEXIST p), fs)) as Hmk
    by (by eapply os_mkdir_existing).
  assert (Path_is_dir p fs = (Ok false, fs)) as Hdir
    by (by rewrite Path_is_dir_eq, Hnul, Hres).
  destruct (rev (parts p)) as [|c0 rp]; simpl in *; rewrite Hp;
    unfold try_except; rewrite Hmk; simpl; run_monad; by rewrite Hdir.
Qed.

(** X12.  When [template_dir] names a regular file, [mkdir] raises
    [FileExistsError] and [store_template] returns [False] with the record
    of the [IOError] clause; the file system is left as it was. *)
Theorem store_template_directory_is_file {Data : Type}
    (yaml_dump : Data -> string * option exc) (d : Data) (n dir : string)
    (w : World) (c : string) :
  file_present (w_fs w) (Path dir) c ->
  store_template yaml_dump d n dir w
  = (Ok false,
     logged ERROR
       ("Failed to write to file for template '" +:+ n +:+ "': "
        +:+ exc_msg (os_error EEXIST (Path dir)))
       (w_fs w) w).
Proof.
  intros [Hnul [k Hres]]. rewrite store_template_unfold.
  by rewrite (Path_mkdir_on_file _ _ _ _ Hnul Hres).
Qed.

Lemma store_template_directory_is_file_witness :
  (store_template FlatYaml.dump Demo.greeting "greeting" "t/other.yaml"
     (mkWorld Fixtures.nested_fs [])).1 = Ok false.
Proof.
  rewrite (store_template_directory_is_file FlatYaml.dump Demo.greeting
             "greeting" "t/other.yaml" (mkWorld Fixtures.nested_fs [])
             "role: user"); [reflexivity|].
  split; [reflexivity|]. eexists. vm_compute. reflexivity.
Defined.

(** ** Names and directories as [pathlib] reads them *)

Lemma split_char_nonempty sep s : split_char sep s <> [].
Proof.
  destruct s as [|c s]; simpl; [done|].
  destruct (Ascii.eqb c sep); [done|]. by destruct (split_char sep s).
Qed.

Lemma has_nul_split s :
  has_nul s = true -> existsb has_nul (split_char "/"%char s) = true.
Proof.
  induction s as [|c s IH]; simpl; [done|].
  destruct (Ascii.eqb_spec c "/"%char) as [->|Hc]; simpl; [exact IH|].
  pose proof (split_char_nonempty "/"%char s) as Hne.
  destruct (split_char "/"%char s) as [|h t]; [done|]. simpl in *.
  destruct (Ascii.eqb c "000"%char); simpl; [done|]. exact IH.
Qed.

Lemma existsb_has_nul_kept l :
  existsb has_nul (filter (fun c => kept_part c = true) l) = existsb has_nul l.
Proof.
  induction l as [|c l IH]; [done|].
  destruct (kept_part c) eqn:Hc.
  - rewrite filter_cons_True by done. simpl. by rewrite IH.
  - rewrite filter_cons_False by (by rewrite Hc). simpl. rewrite IH.
    unfold kept_part in Hc.
    destruct (String.eqb_spec c "") as [->|?]; [done|].
    destruct (String.eqb_spec c ".") as [->|?]; done.
Qed.

Lemma template_file_has_nul n dir :
  has_nul n = true -> path_has_nul (template_file n dir) = true.
Proof.
  intros Hn.
  assert (path_has_nul (Path (n +:+ ".yaml")) = true) as Hq.
  { unfold path_has_nul, Path, split_slash. simpl.
    rewrite existsb_has_nul_kept. apply has_nul_split.
    by rewrite has_nul_app, Hn. }
  unfold template_file, joinpath. destruct (absolute (Path (n +:+ ".yaml"))); [done|].
  unfold path_has_nul in *. cbn [parts]. rewrite existsb_app, Hq.
  by rewrite orb_true_r.
Qed.

(** X6.  A name with an embedded null byte: [load_template] answers that
    the template is not there ([None], one warning), and [store_template]
    returns [False]; neither raises the [ValueError] of the system call. *)
Theorem null_byte_name {Data : Type}
    (yaml_dump : Data -> string * option exc)
    (yaml_safe_load : string -> Res PyValue)
    (d : Data) (n dir : string) (w : World) :
  has_nul n = true ->
  load_template yaml_safe_load n dir w
  = (Ok PyNone, logged WARNING (not_found_message n dir) (w_fs w) w)
  /\ (store_template yaml_dump d n dir w).1 = Ok false.
Proof.
  intros Hnul%(template_file_has_nul n dir). split.
  - rewrite load_template_unfold. simpl. by rewrite Path_exists_eq, Hnul.
  - rewrite store_template_unfold.
    destruct (Path_mkdir _ _ _ _) as [[[]|e] fs1]; [|done].
    unfold open_w. by rewrite Hnul.
Qed.

Lemma null_byte_name_witness :
  load_template FlatYaml.safe_load Fixtures.nul_name "t" Demo.home
  = (Ok PyNone,
     logged WARNING (not_found_message Fixtures.nul_name "t")
       (w_fs Demo.home) Demo.home)
  /\ (store_template FlatYaml.dump Demo.greeting Fixtures.nul_name "t"
        Demo.home).1 = Ok false.
Proof.
  apply (null_byte_name FlatYaml.dump FlatYaml.safe_load Demo.greeting
           Fixtures.nul_name "t" Demo.home).
  reflexivity.
Defined.

Lemma starts_with_slash_app n s :
  starts_with_slash n = true -> starts_with_slash (n +:+ s) = true.
Proof. by destruct n. Qed.

Lemma template_file_absolute n dir :
  starts_with_slash n = true -> template_file n dir = Path (n +:+ ".yaml").
Proof.
  intros Hn. unfold template_file, joinpath.
  assert (absolute (Path (n +:+ ".yaml")) = true) as ->; [|done].
  unfold Path. simpl. by apply starts_with_slash_app.
Qed.

(** X10.  A name that starts with ["/"] escapes the template directory:
    [Path(template_dir) / f"{name}.yaml"] is then the absolute path of the
    name alone, so [load_template] reads the same file whatever directory
    it is given. *)
Theorem load_template_absolute_name
    (yaml_safe_load : string -> Res PyValue) (n dir1 dir2 : string)
    (w : World) :
  starts_with_slash n = true ->
  template_file n dir1 = Path (n +:+ ".yaml")
  /\ load_template yaml_safe_load n dir1 w
     = load_template yaml_safe_load n dir2 w.
Proof.
  intros Hn. split; [by apply template_file_absolute|].
  rewrite !load_template_unfold.
  unfold not_found_message, loaded_message.
  by rewrite !(template_file_absolute n _ Hn).
Qed.

Lemma load_template_absolute_name_witness :
  template_file "/etc/passwd" "templates" = Path "/etc/passwd.yaml"
  /\ load_template FlatYaml.safe_load "/etc/passwd" "templates" Demo.home
     = load_template FlatYaml.safe_load "/etc/passwd" "elsewhere" Demo.home.
Proof.
  apply (load_template_absolute_name FlatYaml.safe_load "/etc/passwd"
           "templates" "elsewhere" Demo.home).
  reflexivity.
Defined.

Lemma split_char_trailing sep s :
  split_char sep (s +:+ String sep "") = split_char sep s ++ [""].
Proof.
  induction s as [|c s IH]; simpl.
  - by rewrite Ascii.eqb_refl.
  - destruct (Ascii.eqb c sep); simpl; [by rewrite IH|].
    rewrite IH. pose proof (split_char_nonempty sep s).
    by destruct (split_char sep s).
Qed.

Lemma Path_trailing_slash s : s <> "" -> Path (s +:+ "/") = Path s.
Proof.
  intros Hs. unfold Path, split_slash. f_equal.
  - by destruct s.
  - rewrite split_char_trailing, filter_app.
    rewrite (filter_cons_False _ "") by (by intros ?). simpl.
    by rewrite app_nil_r.
Qed.

(** X11.  A trailing ["/"] in [template_dir] makes no difference:
    both functions behave on ["dir/"] as on ["dir"].  The directories
    ["/"] and ["//"] are left out: there the added slash changes the
    number of leading slashes between one and two, and [pathlib] keeps a
    root of exactly two slashes apart. *)
Theorem trailing_slash_irrelevant {Data : Type}
    (yaml_dump : Data -> string * option exc)
    (yaml_safe_load : string -> Res PyValue)
    (d : Data) (n dir : string) (w : World) :
  dir <> "" -> dir <> "/" -> dir <> "//" ->
  store_template yaml_dump d n (dir +:+ "/") w = store_template yaml_dump d n dir w
  /\ load_template yaml_safe_load n (dir +:+ "/") w
     = load_template yaml_safe_load n dir w.
Proof.
  intros Hdir _ _. unfold store_template, load_template.
  by rewrite !(Path_trailing_slash dir Hdir).
Qed.

Lemma trailing_slash_irrelevant_witness :
  store_template FlatYaml.dump Demo.greeting "greeting" "t/" Demo.home
  = store_template FlatYaml.dump Demo.greeting "greeting" "t" Demo.home
  /\ load_template FlatYaml.safe_load "greeting" "t/" Demo.home
     = load_template FlatYaml.safe_load "greeting" "t" Demo.home.
Proof.
  apply (trailing_slash_irrelevant FlatYaml.dump FlatYaml.safe_load
           Demo.greeting "greeting" "t" Demo.home); discriminate.
Defined.

(** * Further properties of the prompt executor *)

Section ExecutorMore.

Context {Response : Type}.
Variable remote_generate :
  option string -> string -> string -> nat -> Res Response.
Variable response_text : Response -> Res string.

(** X13.  One call of [execute_prompt] is one attempt: exactly one request
    is sent, with the model name and the prompt as given, whatever the
    outcome (no retry); the environment and the configured key are left
    alone; nothing is printed when a text is returned, one line when
    [None] is. *)
Theorem execute_prompt_single_attempt prompt model_name p :
  let r := execute_prompt remote_generate response_text prompt model_name p in
  requests r.2 = requests p ++ [(model_name, prompt)]
  /\ environ r.2 = environ p
  /\ configured_key r.2 = configured_key p
  /\ match r.1 with
     | Ok (Some _) => stdout r.2 = stdout p
     | _ => exists line, stdout r.2 = stdout p ++ [line]
     end.
Proof.
  simpl. rewrite execute_prompt_unfold. simpl.
  unfold generated_text, call_fault.
  destruct (remote_generate _ _ _ _) as [r|e]; simpl.
  - destruct (response_text r) as [t|e]; simpl.
    + by rewrite app_nil_r.
    + by eauto 10.
  - by eauto 10.
Qed.

(** X14.  In a process whose [GOOGLE_API_KEY] is set and not empty, the
    module-level script configures the client with that key before any
    call: what [execute_prompt] returns is decided by the remote capability
    asked with the key of the environment, whatever key was configured
    before. *)
Theorem execute_prompt_uses_environment_key prompt model_name p :
  truthy (environ p !! "GOOGLE_API_KEY") = true ->
  (with_prompt_executor
     (execute_prompt remote_generate response_text prompt model_name) p).1
  = Ok (inr (generated_text response_text
               (remote_generate (environ p !! "GOOGLE_API_KEY") model_name
                  prompt (length (requests p))))).
Proof.
  intros H. unfold with_prompt_executor, bind.
  rewrite (prompt_executor_startup_present _ H).
  by rewrite execute_prompt_unfold.
Qed.

(** X15.  The two entry points resolve the key differently.
    [prompt_executor.py] imports [load_dotenv] but never calls it: a key
    that is only in the [.env] file is not seen and the process exits with
    status 1.  [main.py] calls [load_dotenv()] first and configures the
    client with that key. *)
Theorem dotenv_key_resolution (p : Process) (k : string) :
  environ p !! "GOOGLE_API_KEY" = None ->
  dotenv_file p !! "GOOGLE_API_KEY" = Some k ->
  (prompt_executor_startup p).1 = Ok (SystemExit 1)
  /\ configured_key (Main.script remote_generate response_text p).2 = Some k.
Proof.
  intros Henv Hdot. split.
  - rewrite prompt_executor_startup_missing; [done|]. by rewrite Henv.
  - unfold Main.script, Main.execute_prompt, load_dotenv, os_getenv,
      genai_configure, generate_content, print.
    run_monad.
    assert ((environ p ∪ dotenv_file p) !! "GOOGLE_API_KEY" = Some k) as ->.
    { rewrite lookup_union_r; done. }
    destruct (remote_generate _ _ _ _) as [r|e]; simpl; [|done].
    by destruct (response_text r).
Qed.

(** X16.  [python main.py] sends exactly one request, for the prompt
    ["Hello"] to ["gemini-2.5-pro"], with the key of the environment or
    else of the [.env] file.  When the call and the extraction of the text
    succeed the text is the only line printed and the status is 0; on any
    fault nothing is printed and the process ends with status 1;
    [main()] is not called. *)
Theorem main_script_run (p : Process) :
  let outcome :=
    remote_generate ((environ p ∪ dotenv_file p) !! "GOOGLE_API_KEY")
      "gemini-2.5-pro" "Hello" (length (requests p)) in
  let r := exit_status (Main.script remote_generate response_text) p in
  requests r.2 = requests p ++ [("gemini-2.5-pro", "Hello")]
  /\ match generated_text response_text outcome with
     | Some t => r.1 = 0%Z /\ stdout r.2 = stdout p ++ [t]
     | None => r.1 = 1%Z /\ stdout r.2 = stdout p
     end.
Proof.
  simpl. unfold exit_status, Main.script, Main.execute_prompt, load_dotenv,
    os_getenv, genai_configure, generate_content, print, generated_text.
  run_monad.
  destruct (remote_generate _ _ _ _) as [r|e]; simpl; [|done].
  by destruct (response_text r).
Qed.

Lemma print_run (line : string) (e d : gmap string string)
    (k : option string) (o : list string) (q : list (string * string)) :
  print line (mkProcess e d k o q) = (Ok tt, mkProcess e d k (o ++ [line]) q).
Proof. reflexivity. Qed.

Lemma execute_prompt_run prompt model_name e d k o q :
  execute_prompt remote_generate response_text prompt model_name
    (mkProcess e d k o q)
  = (Ok (generated_text response_text
           (remote_generate k model_name prompt (length q))),
     mkProcess e d k
       (o ++ match call_fault response_text
                     (remote_generate k model_name prompt (length q)) with
             | Some x => [executor_error_line x]
             | None => []
             end)
       (q ++ [(model_name, prompt)])).
Proof. by rewrite execute_prompt_unfold. Qed.

Ltac step_script :=
  repeat first
    [ rewrite print_run
    | rewrite execute_prompt_run
    | progress cbv beta iota zeta delta [bind fst snd] ].

(** X17.  The test block of [prompt_executor.py] always runs to its end:
    it raises nothing, sends exactly two requests to the default model (the
    test prompt, then the empty prompt) and its last line is the closing
    banner, whatever the remote capability answers. *)
Theorem prompt_executor_main_completes (p : Process) :
  exists p',
    prompt_executor_main remote_generate response_text p = (Ok tt, p')
    /\ requests p'
       = requests p ++ [(DEFAULT_MODEL, test_prompt); (DEFAULT_MODEL, "")]
    /\ last (stdout p') = Some "---- End of Tests ----".
Proof.
  destruct p as [e d k o q].
  unfold prompt_executor_main. step_script.
  set (first_text := generated_text response_text _).
  destruct (truthy first_text); step_script;
  match goal with |- context [truthy ?t] => destruct (truthy t) end;
  step_script;
  (eexists; split; [reflexivity|]; cbn [requests stdout];
   split; [by rewrite <- !(assoc_L (++))|by rewrite last_snoc]).
Qed.

(** X18.  [if response:] tests truthiness, so a response whose text is
    empty is reported by the test block as a failure, although
    [execute_prompt] returned a text and printed no error. *)
Theorem empty_response_reported_as_failure (p : Process) (r : Response) :
  remote_generate (configured_key p) DEFAULT_MODEL test_prompt
    (length (requests p)) = Ok r ->
  response_text r = Ok "" ->
  (execute_prompt remote_generate response_text test_prompt DEFAULT_MODEL p).1
  = Ok (Some "")
  /\ "Failed to get a response from the model."
     ∈ stdout (prompt_executor_main remote_generate response_text p).2.
Proof.
  destruct p as [e d k o q]. cbn [configured_key requests].
  intros Hgen Htext. split.
  - rewrite execute_prompt_run. cbn [fst]. unfold generated_text.
    by rewrite Hgen, Htext.
  - unfold prompt_executor_main. step_script.
    rewrite Hgen. unfold generated_text at 1, call_fault at 1.
    rewrite Htext. cbn [truthy String.eqb negb]. step_script.
    match goal with |- context [truthy ?t] => destruct (truthy t) end;
    step_script; cbn [stdout];
    rewrite !elem_of_app, !list_elem_of_singleton; tauto.
Qed.

End ExecutorMore.

Lemma execute_prompt_uses_environment_key_witness :
  (with_prompt_executor
     (execute_prompt DemoRemote.generate DemoRemote.text "Hello" DEFAULT_MODEL)
     Fixtures.keyed).1
  = Ok (inr (Some "echo: Hello")).
Proof.
  rewrite (execute_prompt_uses_environment_key DemoRemote.generate
             DemoRemote.text "Hello" DEFAULT_MODEL Fixtures.keyed);
    [reflexivity|].
  vm_compute. reflexivity.
Defined.

Lemma dotenv_key_resolution_witness :
  (prompt_executor_startup Fixtures.dotenv_only).1 = Ok (SystemExit 1)
  /\ configured_key
       (Main.script DemoRemote.generate DemoRemote.text Fixtures.dotenv_only).2
     = Some "sk-valid".
Proof.
  apply (dotenv_key_resolution DemoRemote.generate DemoRemote.text
           Fixtures.dotenv_only "sk-valid").
  - vm_compute. reflexivity.
  - vm_compute. reflexivity.
Defined.

Lemma empty_response_reported_as_failure_witness :
  (execute_prompt Fixtures.silent_generate Fixtures.plain_text test_prompt
     DEFAULT_MODEL Fixtures.keyed).1 = Ok (Some "")
  /\ "Failed to get a response from the model."
     ∈ stdout (prompt_executor_main Fixtures.silent_generate
                 Fixtures.plain_text Fixtures.keyed).2.
Proof.
  apply (empty_response_reported_as_failure Fixtures.silent_generate
           Fixtures.plain_text Fixtures.keyed "").
  - reflexivity.
  - reflexivity.
Defined.
